(** * xzreader: a frame-sequencing reader over liblzma and reada

    A shallow embedding of [xzreader.c] (and of the read loops of [main.c])
    together with the properties of its open / read / reopen life cycle.

    The two collaborators of the reader are not part of [xzreader.c]:
    - the buffered source of [reada.h] ([struct fda], [reada], [peeka]);
    - the decoder of liblzma ([lzma_stream_decoder], [lzma_code]).
    They are interfaces here (type classes [Reada] and [Lzma]); what the
    reader's functions do is stated for every implementation, and the
    properties that depend on what the collaborators promise take those
    promises as explicit law records ([SourceLaws], [EngineLaws]).  A small
    concrete source and a small concrete decoder at the end of the
    definitions serve as running examples. *)

From Stdlib Require Import String ZArith Lia Bool Arith List.
From Stdlib Require Import Strings.Byte.
Import ListNotations.

Set Implicit Arguments.
Local Open Scope Z_scope.

(** ** C values

    Bytes are [Byte.byte].  Sizes and counts ([size_t]: [size], [total],
    [avail_in], [avail_out], offsets into a buffer) are [nat]: they are
    sizes of objects in memory, so their sums do not wrap, and the
    differences the code takes ([size - avail_out], [end - avail_in]) are
    those of [nat] as long as the decoder reports no more than it was
    given, which the statements that depend on them assume.  Return values
    ([int], [ssize_t]) are [Z]. *)

Definition byte := Byte.byte.

(** [lzma_ret] of [<lzma/base.h>]. *)
Inductive lzma_ret : Type :=
| LZMA_OK
| LZMA_STREAM_END
| LZMA_NO_CHECK
| LZMA_UNSUPPORTED_CHECK
| LZMA_GET_CHECK
| LZMA_MEM_ERROR
| LZMA_MEMLIMIT_ERROR
| LZMA_FORMAT_ERROR
| LZMA_OPTIONS_ERROR
| LZMA_DATA_ERROR
| LZMA_BUF_ERROR
| LZMA_PROG_ERROR.

Definition lzma_ret_eqb (a b : lzma_ret) : bool :=
  match a, b with
  | LZMA_OK, LZMA_OK | LZMA_STREAM_END, LZMA_STREAM_END
  | LZMA_NO_CHECK, LZMA_NO_CHECK
  | LZMA_UNSUPPORTED_CHECK, LZMA_UNSUPPORTED_CHECK
  | LZMA_GET_CHECK, LZMA_GET_CHECK | LZMA_MEM_ERROR, LZMA_MEM_ERROR
  | LZMA_MEMLIMIT_ERROR, LZMA_MEMLIMIT_ERROR
  | LZMA_FORMAT_ERROR, LZMA_FORMAT_ERROR
  | LZMA_OPTIONS_ERROR, LZMA_OPTIONS_ERROR
  | LZMA_DATA_ERROR, LZMA_DATA_ERROR | LZMA_BUF_ERROR, LZMA_BUF_ERROR
  | LZMA_PROG_ERROR, LZMA_PROG_ERROR => true
  | _, _ => false
  end.

(** [LZMA_STREAM_HEADER_SIZE] of [<lzma/stream_flags.h>]. *)
Definition LZMA_STREAM_HEADER_SIZE : nat := 12.

(** [#define MEMLIMIT (80<<20)] *)
Definition MEMLIMIT : Z := Z.shiftl 80 20.

(** The [err[2]] out-parameter: (origin, message). *)
Definition errinfo : Type := (string * string)%type.

(** What a call of the embedded C functions can end in.  [AssertFails] is a
    failed [assert] (the process aborts); [OutOfFuel] only arises in the
    [do ... while] loops, which are unrolled a bounded number of times. *)
Inductive outcome (A : Type) : Type :=
| Returns (a : A)
| AssertFails
| OutOfFuel.
Arguments AssertFails {A}.
Arguments OutOfFuel {A}.

(** ** [struct fda] of [reada.h]

    [main.c] initialises it as [{ fd, buf }] and [xzreader.c] reads and
    writes its [cur] and [end] pointers.  [buf] is the content of the
    buffer; [cur] and [end] are offsets into it, [None] being [NULL]. *)
Definition ptr : Type := option nat.

Record fda (D : Type) : Type := mkfda {
  fd : D;
  buf : list byte;
  cur : ptr;
  end_ : ptr
}.

(** [end - cur] and [end - n] in pointer arithmetic ([NULL - NULL] is 0). *)
Definition ptr_diff (e c : ptr) : nat :=
  match e, c with
  | Some e, Some c => (e - c)%nat
  | _, _ => 0%nat
  end.

Definition ptr_sub (e : ptr) (n : nat) : ptr :=
  match e with
  | Some e => Some (e - n)%nat
  | None => None
  end.

(** The consumable window: the bytes at [[cur, end)]. *)
Definition window {D} (f : fda D) : list byte :=
  match cur f with
  | Some c => firstn (ptr_diff (end_ f) (cur f)) (skipn c (buf f))
  | None => []
  end.

Definition set_cur {D} (f : fda D) (c : ptr) : fda D :=
  mkfda (fd f) (buf f) c (end_ f).

Definition set_cur_end {D} (f : fda D) (c e : ptr) : fda D :=
  mkfda (fd f) (buf f) c e.

(** Result of [reada] / [peeka]: the returned count (negative on a failed
    [read(2)]), the bytes copied to the caller's buffer, the [struct fda]
    after the call, and [errno] after the call. *)
Record io_result (D : Type) : Type := mkio {
  io_ret : Z;
  io_bytes : list byte;
  io_fda : fda D;
  io_errno : Z
}.

(** [reada.h]: [ssize_t reada(struct fda *, void *buf, size_t size)] and
    [ssize_t peeka(struct fda *, void *buf, size_t size)]. *)
Class Reada (D : Type) : Type := {
  reada : fda D -> nat -> io_result D;
  peeka : fda D -> nat -> io_result D
}.

(** ** [lzma_stream] and [lzma_code]

    One call [lzma_code(strm, LZMA_RUN)] with [next_in .. next_in + avail_in]
    holding [input] and [avail_out] bytes of room at [next_out]: the return
    code, [avail_in] and [avail_out] after the call, the bytes stored at
    [next_out], and the decoder after the call. *)
Record code_result (E : Type) : Type := mkcode {
  co_ret : lzma_ret;
  co_avail_in : nat;
  co_avail_out : nat;
  co_written : list byte;
  co_strm : E
}.

(** [lzma_stream_decoder] is called on a [LZMA_STREAM_INIT] stream only. *)
Class Lzma (E : Type) : Type := {
  lzma_stream_decoder : Z -> Z -> lzma_ret * E;
  lzma_code : E -> list byte -> nat -> code_result E
}.

(** ** libc: [sys_errlist], [sys_nerr], and whether [malloc] succeeds *)
Inductive malloc_result : Type :=
| MallocOk
| MallocFails (errno : Z).

Class Libc : Type := {
  sys_nerr : Z;
  sys_errlist : Z -> string;
  malloc : malloc_result
}.

(** The window after a decode step that left [avail_in] input bytes
    unconsumed (lines 186-189 of [xzreader.c]): [cur = end - avail_in], or
    [cur = end = NULL] when none is left. *)
Definition shrink_window {D} (f : fda D) (avail_in : nat) : fda D :=
  if negb (Nat.eqb avail_in 0) then set_cur f (ptr_sub (end_ f) avail_in)
  else set_cur_end f None None.

(** [cur] and [end] both point into [buf], in this order, or are both
    [NULL]. *)
Definition wf_fda {D} (f : fda D) : Prop :=
  match cur f, end_ f with
  | Some c, Some e => (c <= e <= length (buf f))%nat
  | None, None => True
  | _, _ => False
  end.

(** ** The sources a program holds

    [struct xzreader] stores a pointer to the caller's [struct fda]; the
    sources live in a store indexed by address. *)
Definition fda_ptr : Type := nat.
Definition store (D : Type) : Type := fda_ptr -> fda D.

Definition upd {D} (st : store D) (p : fda_ptr) (f : fda D) : store D :=
  fun q => if Nat.eqb q p then f else st q.

(** [struct xzreader] *)
Record xzreader (E : Type) : Type := mkz {
  z_fda : fda_ptr;
  z_lzma : E;
  z_eof : bool
}.

Section Reader.

Context {D E : Type} `{Reada D} `{Lzma E} `{Libc}.

(** [xstrerror] *)
Definition xstrerror (errnum : Z) : string :=
  if (0 <? errnum) && (errnum <? sys_nerr) then sys_errlist errnum
  else "Unknown error"%string.

(** [lzma_strerror] *)
Definition lzma_strerror (ret : lzma_ret) : string :=
  match ret with
  | LZMA_MEM_ERROR => "Memory allocation failed"
  | LZMA_OPTIONS_ERROR => "Unsupported decompressor flags"
  | LZMA_FORMAT_ERROR => "The input is not in the .xz format"
  | LZMA_DATA_ERROR => "Compressed file is corrupt"
  | LZMA_BUF_ERROR => "Compressed file is truncated or otherwise corrupt"
  | _ => "Unknown error, possibly a bug"
  end%string.

(** [ERRNO], [ERRXZ], [ERRSTR] *)
Definition ERRNO (func : string) (errno : Z) : errinfo :=
  (func, xstrerror errno).
Definition ERRXZ (func : string) (ret : lzma_ret) : errinfo :=
  (func, lzma_strerror ret).
Definition ERRSTR (func str : string) : errinfo := (func, str).

(** *** [xzreader_begin] *)
Record begin_result : Type := mkbegin {
  bg_rc : Z;
  bg_lzma : E;
  bg_store : store D;
  bg_err : errinfo
}.

Definition xzreader_begin (lzma : E) (fda : fda_ptr) (st : store D)
    (err : errinfo) : outcome begin_result :=
  let rd := reada (st fda) LZMA_STREAM_HEADER_SIZE in
  let st := upd st fda (io_fda rd) in
  let n := io_ret rd in
  if n <? 0 then
    Returns (mkbegin (-1) lzma st (ERRNO "read" (io_errno rd)))
  else if n =? 0 then
    Returns (mkbegin 0 lzma st err)
  else if n <? Z.of_nat LZMA_STREAM_HEADER_SIZE then
    Returns (mkbegin (-1) lzma st (ERRSTR "xzreader_begin" "input too small"))
  else
    let r := lzma_code lzma (io_bytes rd) 0 in
    if negb (lzma_ret_eqb (co_ret r) LZMA_OK) then
      Returns (mkbegin (-1) (co_strm r) st (ERRXZ "lzma_code" (co_ret r)))
    else if negb (Nat.eqb (co_avail_in r) 0) then
      AssertFails
    else
      Returns (mkbegin 1 (co_strm r) st err).

(** *** [xzreader_open]

    [zp] is the content of the caller's [struct xzreader *] variable before
    the call ([None]: no reader), [op_zp] its content after the call. *)
Record open_result : Type := mkopen {
  op_rc : Z;
  op_zp : option (xzreader E);
  op_store : store D;
  op_err : errinfo
}.

Definition xzreader_open (zp : option (xzreader E)) (fda : fda_ptr)
    (st : store D) (err : errinfo) : outcome open_result :=
  let '(zret, lzma) := lzma_stream_decoder MEMLIMIT 0 in
  if negb (lzma_ret_eqb zret LZMA_OK) then
    Returns (mkopen (-1) zp st (ERRXZ "lzma_stream_decoder" zret))
  else
    match xzreader_begin lzma fda st err with
    | Returns b =>
        if bg_rc b <=? 0 then
          Returns (mkopen (bg_rc b) zp (bg_store b) (bg_err b))
        else
          match malloc with
          | MallocFails errno =>
              Returns (mkopen (-1) zp (bg_store b) (ERRNO "malloc" errno))
          | MallocOk =>
              Returns (mkopen 1 (Some (mkz fda (bg_lzma b) false))
                              (bg_store b) (bg_err b))
          end
    | AssertFails => AssertFails
    | OutOfFuel => OutOfFuel
    end.

(** *** [xzreader_reopen]

    [fda = None] is the [NULL] argument: the previous source is reused. *)
Record reopen_result : Type := mkreopen {
  ro_rc : Z;
  ro_z : xzreader E;
  ro_store : store D;
  ro_err : errinfo
}.

Definition xzreader_reopen (z : xzreader E) (fda : option fda_ptr)
    (st : store D) (err : errinfo) : outcome reopen_result :=
  let z := match fda with
           | Some p => mkz p (z_lzma z) (z_eof z)
           | None => z
           end in
  let begin (z : xzreader E) :=
    let z := mkz (z_fda z) (z_lzma z) false in
    match xzreader_begin (z_lzma z) (z_fda z) st err with
    | Returns b =>
        Returns (mkreopen (bg_rc b) (mkz (z_fda z) (bg_lzma b) (z_eof z))
                          (bg_store b) (bg_err b))
    | AssertFails => AssertFails
    | OutOfFuel => OutOfFuel
    end in
  if negb (z_eof z) then
    let '(zret, lzma) := lzma_stream_decoder MEMLIMIT 0 in
    let z := mkz (z_fda z) lzma (z_eof z) in
    if negb (lzma_ret_eqb zret LZMA_OK) then
      Returns (mkreopen (-1) z st (ERRXZ "lzma_stream_decoder" zret))
    else begin z
  else begin z.

(** *** [xzreader_read]

    [rd_buf] is what the call has stored in the caller's buffer, from its
    start on. *)
Record read_result : Type := mkread {
  rd_ret : Z;
  rd_buf : list byte;
  rd_z : xzreader E;
  rd_store : store D;
  rd_err : errinfo
}.

(** The state of the [do { ... } while (size && !z->eof)] loop: the reader,
    the sources, what earlier iterations stored in the buffer, and the
    locals [size] and [total]. *)
Record loop_state : Type := mkloop {
  ls_z : xzreader E;
  ls_store : store D;
  ls_out : list byte;
  ls_size : nat;
  ls_total : nat
}.

Inductive iter_result : Type :=
| Break (r : read_result)
| Continue (s : loop_state).

(** The [peeka] call and the [lzma_code] call of an iteration: the decoder
    is offered the whole window [[cur, end)] that [peeka] leaves, and
    [size] bytes of room. *)
Definition iter_peek (s : loop_state) : io_result D :=
  peeka (ls_store s (z_fda (ls_z s))) 4.

Definition iter_code (s : loop_state) : code_result E :=
  lzma_code (z_lzma (ls_z s)) (window (io_fda (iter_peek s))) (ls_size s).

(** One iteration of the loop: the body, then the loop condition. *)
Definition xzreader_read_iter (s : loop_state) (err : errinfo) : iter_result :=
  let z := ls_z s in
  let pk := iter_peek s in
  let st := upd (ls_store s) (z_fda z) (io_fda pk) in
  if io_ret pk <? 0 then
    Break (mkread (-1) (ls_out s) z st (ERRNO "read" (io_errno pk)))
  else if io_ret pk =? 0 then
    Break (mkread (-1) (ls_out s) z st
                  (ERRSTR "xzreader_read" "unexpected EOF"))
  else
    let r := iter_code s in
    let out := (ls_out s ++ co_written r)%list in
    let z := mkz (z_fda z) (co_strm r)
                 (if lzma_ret_eqb (co_ret r) LZMA_STREAM_END then true
                  else z_eof z) in
    if negb (lzma_ret_eqb (co_ret r) LZMA_STREAM_END)
       && negb (lzma_ret_eqb (co_ret r) LZMA_OK) then
      Break (mkread (-1) out z st (ERRXZ "lzma_code" (co_ret r)))
    else
      let st := upd (ls_store s) (z_fda z)
                    (shrink_window (io_fda pk) (co_avail_in r)) in
      let n := (ls_size s - co_avail_out r)%nat in
      let size := co_avail_out r in
      let total := (ls_total s + n)%nat in
      if negb (Nat.eqb size 0) && negb (z_eof z) then
        Continue (mkloop z st out size total)
      else
        Break (mkread (Z.of_nat total) out z st err).

(** [iter_steps err k s s']: [k] iterations lead from [s] to [s'], the loop
    going on after each of them. *)
Inductive iter_steps (err : errinfo) : nat -> loop_state -> loop_state -> Prop :=
| steps_O : forall s, iter_steps err 0 s s
| steps_S : forall k s s1 s2,
    xzreader_read_iter s err = Continue s1 ->
    iter_steps err k s1 s2 ->
    iter_steps err (S k) s s2.

Fixpoint xzreader_read_loop (fuel : nat) (s : loop_state) (err : errinfo)
    : outcome read_result :=
  match fuel with
  | O => OutOfFuel
  | S fuel =>
      match xzreader_read_iter s err with
      | Break r => Returns r
      | Continue s => xzreader_read_loop fuel s err
      end
  end.

Definition xzreader_read (fuel : nat) (z : xzreader E) (st : store D)
    (size : nat) (err : errinfo) : outcome read_result :=
  if z_eof z then Returns (mkread 0 [] z st err)
  else if Nat.eqb size 0 then AssertFails
  else xzreader_read_loop fuel (mkloop z st [] size 0) err.

(** The sources as an iteration leaves them, whether the loop goes on or
    not. *)
Definition it_store (i : iter_result) : store D :=
  match i with Break r => rd_store r | Continue s => ls_store s end.

(** *** The frame loop of [main.c]

    [while ((ret = xzreader_read(z, buf, sizeof buf, err)) > 0)
         fwrite(buf, 1, ret, stdout);]
    the loop of the second pass; the first pass runs the same calls and
    drops the output.  [size] is [sizeof buf], [fr_out] is what has been
    written to [stdout], [fr_ret] the value of the last call, and [fuel]
    bounds this loop and the loop of each call. *)
Record frame_result : Type := mkframe {
  fr_ret : Z;
  fr_out : list byte;
  fr_z : xzreader E;
  fr_store : store D;
  fr_err : errinfo
}.

Fixpoint read_frame (fuel : nat) (z : xzreader E) (st : store D)
    (size : nat) (stdout : list byte) (err : errinfo)
    : outcome frame_result :=
  match fuel with
  | O => OutOfFuel
  | S fuel' =>
      match xzreader_read fuel z st size err with
      | Returns r =>
          if 0 <? rd_ret r then
            read_frame fuel' (rd_z r) (rd_store r) size
              (stdout ++ firstn (Z.to_nat (rd_ret r)) (rd_buf r))%list
              (rd_err r)
          else
            Returns (mkframe (rd_ret r) stdout (rd_z r) (rd_store r)
                             (rd_err r))
      | AssertFails => AssertFails
      | OutOfFuel => OutOfFuel
      end
  end.

(** A sequence of [xzreader_read] calls on the same reader, one per buffer
    size in [sizes]; the values they return, in order. *)
Fixpoint read_calls (fuel : nat) (z : xzreader E) (st : store D)
    (err : errinfo) (sizes : list nat)
    : outcome (list Z * xzreader E * store D * errinfo) :=
  match sizes with
  | [] => Returns ([], z, st, err)
  | size :: sizes =>
      match xzreader_read fuel z st size err with
      | Returns r =>
          match read_calls fuel (rd_z r) (rd_store r) (rd_err r) sizes with
          | Returns (rets, z, st, err) => Returns (rd_ret r :: rets, z, st, err)
          | AssertFails => AssertFails
          | OutOfFuel => OutOfFuel
          end
      | AssertFails => AssertFails
      | OutOfFuel => OutOfFuel
      end
  end.

End Reader.

(** ** What the collaborators promise *)

(** Modelled from the spec: the capability contract of the buffered source
    ([reada.h] itself belongs to a library of its own).  [holds f s] reads
    "from its cursor on, the source [f] delivers exactly the bytes [s],
    without I/O error": the window is a prefix of [s] and lies inside the
    buffer; [peeka] makes bytes visible without consuming any and returns 0
    only at the end of the descriptor; [reada] consumes up to [n] bytes;
    and the source takes note of the cursor the reader moves. *)
Record SourceLaws {D} `{Reada D} (holds : fda D -> list byte -> Prop)
    : Prop := {
  src_window : forall f s, holds f s -> exists t, s = (window f ++ t)%list;
  src_wf : forall f s, holds f s -> wf_fda f;
  src_peeka : forall f s n, holds f s -> (0 < n)%nat ->
    holds (io_fda (peeka f n)) s /\
    (s = [] -> io_ret (peeka f n) = 0) /\
    (s <> [] -> 0 < io_ret (peeka f n) /\ window (io_fda (peeka f n)) <> []);
  src_reada : forall f s n, holds f s -> (0 < n)%nat ->
    io_ret (reada f n) = Z.of_nat (length (firstn n s)) /\
    io_bytes (reada f n) = firstn n s /\
    holds (io_fda (reada f n)) (skipn n s);
  src_shrink : forall f s a, holds f s -> (a <= length (window f))%nat ->
    holds (shrink_window f a) (skipn (length (window f) - a) s)
}.

Arguments src_window {D H holds} _ [f s] _.
Arguments src_wf {D H holds} _ [f s] _.
Arguments src_peeka {D H holds} _ [f s n] _ _.
Arguments src_reada {D H holds} _ [f s n] _ _.
Arguments src_shrink {D H holds} _ [f s a] _ _.

(** Modelled from the spec: the capability contract of the frame decode
    engine (liblzma).
    - [is_frame fr d]: [fr] is a valid frame, the compressed form of [d];
    - [Ready e]: the decoder [e] is at the start of a frame;
    - [Decoding e rin rout m]: [e] is inside a frame of which the bytes
      [rin] are still to be consumed and the bytes [rout] still to be
      produced, and it will return [LZMA_OK] at most [m] more times.
    A frame is a header and more; a decoder just constructed is ready; a
    ready decoder accepts the header of a valid frame, consuming it whole;
    inside a frame there is input left to consume; and a decode step
    inside a frame, given some input and some room, reports exact counts,
    stores the next bytes of the content, never consumes input beyond the
    end of the frame, and returns [LZMA_STREAM_END] when it has consumed
    the frame to its end and produced all its content, [LZMA_OK]
    otherwise. *)
Record EngineLaws {E} `{Lzma E}
    (is_frame : list byte -> list byte -> Prop)
    (Ready : E -> Prop)
    (Decoding : E -> list byte -> list byte -> nat -> Prop) : Prop := {
  eng_frame_length : forall fr d,
    is_frame fr d -> (LZMA_STREAM_HEADER_SIZE < length fr)%nat;
  eng_fresh : forall ret e,
    lzma_stream_decoder MEMLIMIT 0 = (ret, e) -> ret = LZMA_OK -> Ready e;
  eng_header : forall e fr d, Ready e -> is_frame fr d ->
    let r := lzma_code e (firstn LZMA_STREAM_HEADER_SIZE fr) 0 in
    co_ret r = LZMA_OK /\ co_avail_in r = 0%nat /\ co_written r = [] /\
    exists m, Decoding (co_strm r) (skipn LZMA_STREAM_HEADER_SIZE fr) d m;
  eng_pending : forall e rin rout m, Decoding e rin rout m -> rin <> [];
  eng_step : forall e rin rout m inp tail rest n,
    Decoding e rin rout m -> inp <> [] ->
    (inp ++ tail = rin ++ rest)%list -> (0 < n)%nat ->
    let r := lzma_code e inp n in
    exists c k,
      (c <= length inp)%nat /\ (c <= length rin)%nat /\
      co_avail_in r = (length inp - c)%nat /\
      (k <= n)%nat /\ (k <= length rout)%nat /\
      co_avail_out r = (n - k)%nat /\
      co_written r = firstn k rout /\
      ((co_ret r = LZMA_STREAM_END /\ c = length rin /\ k = length rout) \/
       (co_ret r = LZMA_OK /\
        exists m', (m' < m)%nat /\
          Decoding (co_strm r) (skipn c rin) (skipn k rout) m'))
}.

Arguments eng_frame_length {E H is_frame Ready Decoding} _ [fr d] _.
Arguments eng_fresh {E H is_frame Ready Decoding} _ [ret e] _ _.
Arguments eng_header {E H is_frame Ready Decoding} _ [e fr d] _ _.
Arguments eng_pending {E H is_frame Ready Decoding} _ [e rin rout m] _.
Arguments eng_step {E H is_frame Ready Decoding} _
  [e rin rout m inp tail rest n] _ _ _ _.

(** Where a reader stands in a stream whose bytes after the current frame
    are [rest]: inside the frame, the source still holding the rest of the
    frame and then [rest]; or at the boundary, the frame complete and the
    source holding exactly [rest]. *)
Definition in_frame {D E} (holds : fda D -> list byte -> Prop)
    (Decoding : E -> list byte -> list byte -> nat -> Prop)
    (z : xzreader E) (st : store D) (rest : list byte) : Prop :=
  z_eof z = false /\
  exists rin rout m,
    Decoding (z_lzma z) rin rout m /\ holds (st (z_fda z)) (rin ++ rest)%list.

Definition at_boundary {D E} (holds : fda D -> list byte -> Prop)
    (z : xzreader E) (st : store D) (rest : list byte) : Prop :=
  z_eof z = true /\ holds (st (z_fda z)) rest.

(** ** A small source and a small decoder

    Concrete implementations of the two interfaces, small enough to run:
    they make the laws above inhabited and give the examples below
    something to evaluate. *)

(** The descriptor is the list of bytes it has not delivered yet; the
    buffer holds [toy_NREADA] bytes. *)
Definition toy_NREADA : nat := 8.

(** Refill: move the window to the start of the buffer and read as many
    bytes as fit behind it. *)
Definition toy_fill (f : fda (list byte)) : fda (list byte) :=
  let w := window f in
  let more := firstn (toy_NREADA - length w) (fd f) in
  mkfda (skipn (toy_NREADA - length w) (fd f)) (w ++ more)
        (Some 0%nat) (Some (length w + length more)%nat).

Definition toy_peeka (f : fda (list byte)) (n : nat) : io_result (list byte) :=
  if (n <=? length (window f))%nat then
    mkio (Z.of_nat n) (firstn n (window f)) f 0
  else
    let f' := toy_fill f in
    mkio (Z.of_nat (length (firstn n (window f')))) (firstn n (window f')) f' 0.

Definition toy_reada (f : fda (list byte)) (n : nat) : io_result (list byte) :=
  let w := window f in
  if (n <=? length w)%nat then
    mkio (Z.of_nat n) (firstn n w)
         (set_cur f (option_map (fun c => (c + n)%nat) (cur f))) 0
  else
    let got := firstn n (w ++ fd f) in
    mkio (Z.of_nat (length got)) got
         (mkfda (skipn (n - length w) (fd f)) (buf f) None None) 0.

Definition toy_source : Reada (list byte) :=
  {| reada := toy_reada; peeka := toy_peeka |}.

Definition toy_holds (f : fda (list byte)) (s : list byte) : Prop :=
  wf_fda f /\ s = (window f ++ fd f)%list.

(** The frame format of the small decoder: a 12-byte header, the content
    (any bytes but [00] and [ff]) stored as it is, and a [00] footer.  An
    [ff] byte inside a frame is corrupt data.  After the footer the decoder
    is ready for the header of a next frame. *)
Definition toy_magic : list byte :=
  [xfd; x37; x7a; x58; x5a; x00; x00; x01; x69; x22; xde; x36].

Inductive toy_strm : Type :=
| TInit
| TBody.

Definition bytes_eqb (a b : list byte) : bool :=
  if list_eq_dec byte_eq_dec a b then true else false.

(** Decode the body: (return code, bytes consumed, bytes written, state). *)
Fixpoint toy_body (inp : list byte) (room : nat)
    : lzma_ret * nat * list byte * toy_strm :=
  match inp with
  | [] => (LZMA_OK, 0%nat, [], TBody)
  | b :: inp' =>
      if Byte.eqb b x00 then (LZMA_STREAM_END, 1%nat, [], TInit)
      else if Byte.eqb b xff then (LZMA_DATA_ERROR, 1%nat, [], TBody)
      else
        match room with
        | O => (LZMA_OK, 0%nat, [], TBody)
        | S room' =>
            let '(ret, c, w, s) := toy_body inp' room' in
            (ret, S c, b :: w, s)
        end
  end.

Definition toy_code (e : toy_strm) (inp : list byte) (room : nat)
    : code_result toy_strm :=
  match e with
  | TInit =>
      if (length inp <? 12)%nat then
        mkcode LZMA_BUF_ERROR 0 room [] TInit
      else if bytes_eqb (firstn 12 inp) toy_magic then
        mkcode LZMA_OK (length inp - 12) room [] TBody
      else
        mkcode LZMA_FORMAT_ERROR (length inp) room [] TInit
  | TBody =>
      let '(ret, c, w, s) := toy_body inp room in
      mkcode ret (length inp - c) (room - length w) w s
  end.

Definition toy_engine : Lzma toy_strm :=
  {| lzma_stream_decoder := fun _ _ => (LZMA_OK, TInit);
     lzma_code := toy_code |}.

(** The same decoder in a process that is out of memory:
    [lzma_stream_decoder] fails. *)
Definition toy_engine_nomem : Lzma toy_strm :=
  {| lzma_stream_decoder := fun _ _ => (LZMA_MEM_ERROR, TInit);
     lzma_code := toy_code |}.

Definition toy_plain (b : byte) : Prop := b <> x00 /\ b <> xff.

Definition toy_is_frame (fr d : list byte) : Prop :=
  fr = (toy_magic ++ d ++ [x00])%list /\ Forall toy_plain d.

Definition toy_Ready (e : toy_strm) : Prop := e = TInit.

Definition toy_Decoding (e : toy_strm) (rin rout : list byte) (m : nat)
    : Prop :=
  e = TBody /\ rin = (rout ++ [x00])%list /\ Forall toy_plain rout /\
  m = length rin.

(** A libc whose [malloc] succeeds, and one whose [malloc] fails with
    [ENOMEM]. *)
Definition toy_errlist (e : Z) : string :=
  if e =? 5 then "Input/output error"
  else if e =? 12 then "Cannot allocate memory"
  else "Success".

Definition toy_libc : Libc :=
  {| sys_nerr := 134; sys_errlist := toy_errlist; malloc := MallocOk |}.

Definition toy_libc_nomem : Libc :=
  {| sys_nerr := 134; sys_errlist := toy_errlist; malloc := MallocFails 12 |}.

(** A source that has fetched nothing yet: [struct fda fda = { fd, buf }]. *)
Definition toy_fda (content : list byte) : fda (list byte) :=
  mkfda content [] None None.

Definition toy_store (content : list byte) : store (list byte) :=
  fun _ => toy_fda content.

Definition no_err : errinfo := (""%string, ""%string).

(** Two frames, "AB" and "C", and their concatenation. *)
Definition frame_AB : list byte := (toy_magic ++ [x41; x42; x00])%list.
Definition frame_C : list byte := (toy_magic ++ [x43; x00])%list.
Definition two_frames : list byte := (frame_AB ++ frame_C)%list.

(** What can follow a header: the rest of frame "AB" and the first byte of
    a next frame; a body cut short before its footer; a body with a corrupt
    byte; and a body with a corrupt byte behind a full buffer. *)
Definition body_AB_more : list byte := [x41; x42; x00; xfd].
Definition body_truncated : list byte := [x41; x42].
Definition body_corrupt : list byte := [x41; xff; x42].
Definition body_corrupt_late : list byte :=
  [x41; x42; x43; x44; x45; x46; x47; x48; xff].

(** A reader inside a frame, and a reader whose frame is complete. *)
Definition toy_z_body : xzreader toy_strm := mkz 0%nat TBody false.
Definition toy_z_done : xzreader toy_strm := mkz 0%nat TInit true.

(** The loop state at the start of [xzreader_read] on [toy_z_body], one
    iteration on it, and the state or the result this iteration leaves. *)
Definition toy_loop (content : list byte) (size : nat)
    : @loop_state (list byte) toy_strm :=
  mkloop toy_z_body (toy_store content) [] size 0.

Definition toy_iter (s : @loop_state (list byte) toy_strm)
    : @iter_result (list byte) toy_strm :=
  @xzreader_read_iter _ _ toy_source toy_engine toy_libc s no_err.

Definition toy_next (s : @loop_state (list byte) toy_strm)
    : @loop_state (list byte) toy_strm :=
  match toy_iter s with
  | Continue s1 => s1
  | Break _ => s
  end.

Definition toy_break (s : @loop_state (list byte) toy_strm)
    : @read_result (list byte) toy_strm :=
  match toy_iter s with
  | Break r => r
  | Continue s1 => mkread 0 [] (ls_z s1) (ls_store s1) no_err
  end.

(** ** The origins of errors

    The first string of [err] after a failure: the names given to [ERRNO]
    and [ERRXZ], and [__func__] for [ERRSTR]. *)
Definition open_origins : list string :=
  ["lzma_stream_decoder"; "read"; "xzreader_begin"; "lzma_code"; "malloc"]%string.
Definition reopen_origins : list string :=
  ["lzma_stream_decoder"; "read"; "xzreader_begin"; "lzma_code"]%string.
Definition read_origins : list string :=
  ["read"; "xzreader_read"; "lzma_code"]%string.

(** ** [main.c]

    [lseek(fd, offset, whence)] of [<unistd.h>]: the position it returns
    (-1 on failure) and the descriptor after the call. *)
Class Lseek (D : Type) : Type := {
  lseek : D -> Z -> Z -> Z * D
}.

(** [#define PROG "xzreader"], and the newline of the format strings. *)
Definition PROG : string := "xzreader".
Definition NL : string := String (Ascii.ascii_of_nat 10) EmptyString.

(** [error]: the line it prints on [stderr]. *)
Definition error (func : string) (err : errinfo) : string :=
  if String.eqb func (fst err) then
    (PROG ++ ": " ++ fst err ++ ": " ++ snd err ++ NL)%string
  else
    (PROG ++ ": " ++ func ++ ": " ++ fst err ++ ": " ++ snd err ++ NL)%string.

(** [char buf[256<<10]] *)
Definition main_bufsize : nat := Z.to_nat (Z.shiftl 256 10).

Section Main.

Context {D E : Type} `{Reada D} `{Lseek D} `{Lzma E} `{Libc}.

(** One pass over the frames:
    [while (1) {
         while ((ret = xzreader_read(z, buf, sizeof buf, err)) > 0) ...;
         if (ret < 0) return error("xzreader_read", err), 1;
         zret = xzreader_reopen(z, &fda, err);
         if (zret < 0) return error("xzreader_reopen", err), 1;
         if (zret == 0) break;
     }]
    [fda] is [&fda] and [size] is [sizeof buf].  [ps_failed] is the name
    given to [error] when a call failed, [ps_out] what the inner loops have
    written (the first pass of [main] writes nothing: it runs the same
    calls and its [ps_out] is dropped). *)
Record pass_result : Type := mkpass {
  ps_failed : option string;
  ps_out : list byte;
  ps_z : xzreader E;
  ps_store : store D;
  ps_err : errinfo
}.

Fixpoint frames_pass (fuel : nat) (fda : fda_ptr) (size : nat)
    (z : xzreader E) (st : store D) (stdout : list byte) (err : errinfo)
    : outcome pass_result :=
  match fuel with
  | O => OutOfFuel
  | S fuel' =>
      match read_frame fuel z st size stdout err with
      | Returns r =>
          if fr_ret r <? 0 then
            Returns (mkpass (Some "xzreader_read"%string) (fr_out r) (fr_z r)
                            (fr_store r) (fr_err r))
          else
            match xzreader_reopen (fr_z r) (Some fda) (fr_store r)
                                  (fr_err r) with
            | Returns ro =>
                if ro_rc ro <? 0 then
                  Returns (mkpass (Some "xzreader_reopen"%string) (fr_out r)
                                  (ro_z ro) (ro_store ro) (ro_err ro))
                else if ro_rc ro =? 0 then
                  Returns (mkpass None (fr_out r) (ro_z ro) (ro_store ro)
                                  (ro_err ro))
                else
                  frames_pass fuel' fda size (ro_z ro) (ro_store ro)
                              (fr_out r) (ro_err ro)
            | AssertFails => AssertFails
            | OutOfFuel => OutOfFuel
            end
      | AssertFails => AssertFails
      | OutOfFuel => OutOfFuel
      end
  end.

(** [my_rewind]; [err] is its local, uninitialised [err[2]]. *)
Definition my_rewind (z : xzreader E) (fda : fda_ptr) (st : store D)
    (err : errinfo) : outcome (xzreader E * store D) :=
  let '(pos, d) := lseek (fd (st fda)) 0 0 in
  if negb (pos =? 0) then AssertFails
  else
    let st := upd st fda (mkfda d (buf (st fda)) None None) in
    match xzreader_reopen z (Some fda) st err with
    | Returns ro =>
        if negb (ro_rc ro =? 1) then AssertFails
        else Returns (ro_z ro, ro_store ro)
    | AssertFails => AssertFails
    | OutOfFuel => OutOfFuel
    end.

(** [main].  [stdin] is the descriptor [d]; [fdabuf] is the content of the
    buffer of [fda] at the start, and [zp], [err] and [err'] are the
    contents of the uninitialised [z], [err] and the [err] of [my_rewind];
    [fda] lives at address 0.  The result is the exit code and what has
    been written to [stdout] and [stderr].  ([xzreader_open] stores a
    reader whenever it returns 1, so [z] is set where it is used;
    [xzreader_free] before [return 0] releases the reader and leaves what
    has been written as it is.) *)
Record main_result : Type := mkmain {
  m_exit : Z;
  m_stdout : list byte;
  m_stderr : string
}.

Definition main (fuel : nat) (d : D) (fdabuf : list byte)
    (zp : option (xzreader E)) (err err' : errinfo) : outcome main_result :=
  let fda := 0%nat in
  let st : store D := fun _ => mkfda d fdabuf None None in
  match xzreader_open zp fda st err with
  | Returns o =>
      if op_rc o <? 0 then
        Returns (mkmain 1 [] (error "xzreader_fdopen" (op_err o)))
      else if op_rc o =? 0 then
        Returns (mkmain 0 [] (PROG ++ ": empty input" ++ NL)%string)
      else
        match op_zp o with
        | None => AssertFails
        | Some z =>
            match frames_pass fuel fda main_bufsize z (op_store o) []
                              (op_err o) with
            | Returns p1 =>
                match ps_failed p1 with
                | Some func => Returns (mkmain 1 [] (error func (ps_err p1)))
                | None =>
                    match my_rewind (ps_z p1) fda (ps_store p1) err' with
                    | Returns (z, st) =>
                        match frames_pass fuel fda main_bufsize z st []
                                          (ps_err p1) with
                        | Returns p2 =>
                            match ps_failed p2 with
                            | Some func =>
                                Returns (mkmain 1 (ps_out p2)
                                                (error func (ps_err p2)))
                            | None => Returns (mkmain 0 (ps_out p2) "")
                            end
                        | AssertFails => AssertFails
                        | OutOfFuel => OutOfFuel
                        end
                    | AssertFails => AssertFails
                    | OutOfFuel => OutOfFuel
                    end
                end
            | AssertFails => AssertFails
            | OutOfFuel => OutOfFuel
            end
        end
  | AssertFails => AssertFails
  | OutOfFuel => OutOfFuel
  end.

End Main.

(** ** What [main.c] relies on besides *)

(** The descriptor is a seekable file: [file_of d c] reads "[d] is open on
    a file of content [c]".  [reada] and [peeka] keep the file, and
    [lseek(fd, 0, SEEK_SET)] returns 0 and leaves a descriptor from which a
    source with an empty window delivers the whole file. *)
Record SeekLaws {D} `{Reada D} `{Lseek D}
    (holds : fda D -> list byte -> Prop)
    (file_of : D -> list byte -> Prop) : Prop := {
  seek_reada : forall f n c,
    file_of (fd f) c -> file_of (fd (io_fda (reada f n))) c;
  seek_peeka : forall f n c,
    file_of (fd f) c -> file_of (fd (io_fda (peeka f n))) c;
  seek_rewind : forall d c b,
    file_of d c ->
    fst (lseek d 0 0) = 0 /\ file_of (snd (lseek d 0 0)) c /\
    holds (mkfda (snd (lseek d 0 0)) b None None) c
}.

Arguments seek_reada {D H H0 holds file_of} _ f n [c] _.
Arguments seek_peeka {D H H0 holds file_of} _ f n [c] _.
Arguments seek_rewind {D H H0 holds file_of} _ [d c] b _.

(** ** More small sources *)

(** The small source with a descriptor that fails with [EIO] where it
    should report its end. *)
Definition toy_eio (r : io_result (list byte)) (f : fda (list byte))
    : io_result (list byte) :=
  if io_ret r =? 0 then mkio (-1) [] f 5 else r.

Definition toy_source_eio : Reada (list byte) :=
  {| reada := fun f n => toy_eio (toy_reada f n) f;
     peeka := fun f n => toy_eio (toy_peeka f n) f |}.

(** The small source on a seekable file: the descriptor is the content of
    the file and the part of it not delivered yet. *)
Definition toy_file : Type := (list byte * list byte)%type.

Definition toy_down (f : fda toy_file) : fda (list byte) :=
  mkfda (snd (fd f)) (buf f) (cur f) (end_ f).

Definition toy_up (c : list byte) (f : fda (list byte)) : fda toy_file :=
  mkfda (c, fd f) (buf f) (cur f) (end_ f).

Definition toy_lift (c : list byte) (r : io_result (list byte))
    : io_result toy_file :=
  mkio (io_ret r) (io_bytes r) (toy_up c (io_fda r)) (io_errno r).

Definition toy_seek_source : Reada toy_file :=
  {| reada := fun f n => toy_lift (fst (fd f)) (toy_reada (toy_down f) n);
     peeka := fun f n => toy_lift (fst (fd f)) (toy_peeka (toy_down f) n) |}.

(** [lseek] with [SEEK_SET] (0) inside the file; anything else fails. *)
Definition toy_lseek (d : toy_file) (offset whence : Z) : Z * toy_file :=
  if (whence =? 0) && (0 <=? offset)
     && (offset <=? Z.of_nat (length (fst d))) then
    (offset, (fst d, skipn (Z.to_nat offset) (fst d)))
  else (-1, d).

Definition toy_seek : Lseek toy_file := {| lseek := toy_lseek |}.

Definition toy_seek_holds (f : fda toy_file) (s : list byte) : Prop :=
  toy_holds (toy_down f) s.

Definition toy_file_of (d : toy_file) (c : list byte) : Prop := fst d = c.

(** ** More small decoders *)

(** The small decoder under a memory-usage ceiling.  [lzma_stream_decoder]
    keeps the ceiling it is given.  Decoding the body of a frame needs
    [toy_need] bytes of memory (129 MiB, what liblzma needs for a frame
    compressed with a dictionary of 128 MiB), and under a lower ceiling the
    first decode step of the body returns [LZMA_MEMLIMIT_ERROR]. *)
Definition toy_need : Z := Z.shiftl 129 20.

Definition toy_code_limit (e : Z * toy_strm) (inp : list byte) (room : nat)
    : code_result (Z * toy_strm) :=
  match snd e with
  | TBody =>
      if fst e <? toy_need then
        mkcode LZMA_MEMLIMIT_ERROR (length inp) room [] e
      else
        let r := toy_code TBody inp room in
        mkcode (co_ret r) (co_avail_in r) (co_avail_out r) (co_written r)
               (fst e, co_strm r)
  | TInit =>
      let r := toy_code TInit inp room in
      mkcode (co_ret r) (co_avail_in r) (co_avail_out r) (co_written r)
             (fst e, co_strm r)
  end.

Definition toy_engine_limit : Lzma (Z * toy_strm) :=
  {| lzma_stream_decoder := fun memlimit _ => (LZMA_OK, (memlimit, TInit));
     lzma_code := toy_code_limit |}.

(** The small decoder serving one frame per instance, as a decoder made by
    [lzma_stream_decoder] without the flag [LZMA_CONCATENATED] does: once
    it has returned [LZMA_STREAM_END] it answers every further call with
    [LZMA_STREAM_END], consuming and storing nothing.  The flag of the
    state tells whether the frame is complete. *)
Definition toy_code_once (e : bool * toy_strm) (inp : list byte) (room : nat)
    : code_result (bool * toy_strm) :=
  if fst e then mkcode LZMA_STREAM_END (length inp) room [] e
  else
    let r := toy_code (snd e) inp room in
    mkcode (co_ret r) (co_avail_in r) (co_avail_out r) (co_written r)
           (lzma_ret_eqb (co_ret r) LZMA_STREAM_END, co_strm r).

Definition toy_engine_once : Lzma (bool * toy_strm) :=
  {| lzma_stream_decoder := fun _ _ => (LZMA_OK, (false, TInit));
     lzma_code := toy_code_once |}.

Definition toy_once_Ready (e : bool * toy_strm) : Prop :=
  fst e = false /\ toy_Ready (snd e).

Definition toy_once_Decoding (e : bool * toy_strm) (rin rout : list byte)
    (m : nat) : Prop :=
  fst e = false /\ toy_Decoding (snd e) rin rout m.

(** A descriptor that cannot seek (a pipe): [lseek] fails. *)
Definition toy_pipe : Lseek (list byte) :=
  {| lseek := fun d _ _ => (-1, d) |}.

(** * Properties *)

(** ** Stores and return codes *)

Lemma upd_same {D} (st : store D) p f : upd st p f p = f.
Proof. unfold upd. now rewrite Nat.eqb_refl. Qed.

Lemma upd_other {D} (st : store D) p q f : q <> p -> upd st p f q = st q.
Proof.
  intros Hne. unfold upd.
  destruct (Nat.eqb q p) eqn:Heq; [|reflexivity].
  apply Nat.eqb_eq in Heq. contradiction.
Qed.

Lemma lzma_ret_eqb_eq a b : lzma_ret_eqb a b = true <-> a = b.
Proof. destruct a, b; simpl; split; intros Heq; congruence. Qed.

Lemma lzma_ret_eqb_neq a b : lzma_ret_eqb a b = false <-> a <> b.
Proof.
  split.
  - intros Hf Heq. apply lzma_ret_eqb_eq in Heq. congruence.
  - intros Hne. destruct (lzma_ret_eqb a b) eqn:Hb; [|reflexivity].
    apply lzma_ret_eqb_eq in Hb. contradiction.
Qed.

(** ** The window *)

Lemma window_length {D} (f : fda D) :
  wf_fda f -> length (window f) = ptr_diff (end_ f) (cur f).
Proof.
  unfold wf_fda, window.
  destruct (cur f) as [c|], (end_ f) as [e|]; simpl; intros Hwf;
    try contradiction; try reflexivity.
  rewrite length_firstn, length_skipn. lia.
Qed.

(** Shrinking the window to its last [a] bytes drops the bytes before them
    and changes nothing else. *)
Lemma window_shrink {D} (f : fda D) (a : nat) :
  wf_fda f -> (a <= length (window f))%nat ->
  window (shrink_window f a) = skipn (length (window f) - a) (window f).
Proof.
  intros Hwf Ha. pose proof (window_length f Hwf) as Hlen.
  unfold shrink_window.
  destruct (Nat.eqb_spec a 0) as [->|Hne]; simpl.
  - rewrite Nat.sub_0_r. now rewrite skipn_all.
  - unfold wf_fda in Hwf. unfold window in *.
    destruct (cur f) as [c|] eqn:Hc, (end_ f) as [e|] eqn:He; simpl in *;
      try contradiction; try lia.
    rewrite He. simpl. rewrite Hlen.
    rewrite skipn_firstn_comm, skipn_skipn.
    f_equal; [lia|]. f_equal. lia.
Qed.

Lemma wf_shrink {D} (f : fda D) (a : nat) :
  wf_fda f -> wf_fda (shrink_window f a).
Proof.
  unfold wf_fda, shrink_window.
  destruct (Nat.eqb_spec a 0) as [->|Hne]; simpl; [auto|].
  destruct (cur f) as [c|], (end_ f) as [e|]; simpl; auto; lia.
Qed.

Lemma lzma_ret_eqb_spec a b : reflect (a = b) (lzma_ret_eqb a b).
Proof.
  destruct (lzma_ret_eqb a b) eqn:Hb; constructor.
  - now apply lzma_ret_eqb_eq.
  - now apply lzma_ret_eqb_neq.
Qed.

Section ReaderFacts.

Context {D E : Type} {RD : Reada D} {LZ : Lzma E} {LC : Libc}.

(** ** The header probe *)

(** What [xzreader_begin] does, by what [reada] returns and what the
    decoder says of the header. *)
Lemma xzreader_begin_cases (lzma : E) (p : fda_ptr) (st : store D)
    (err : errinfo) :
  let rd := reada (st p) LZMA_STREAM_HEADER_SIZE in
  let st1 := upd st p (io_fda rd) in
  let r := lzma_code lzma (io_bytes rd) 0 in
  (io_ret rd < 0 ->
     xzreader_begin lzma p st err =
     Returns (mkbegin (-1) lzma st1 (ERRNO "read" (io_errno rd)))) /\
  (io_ret rd = 0 ->
     xzreader_begin lzma p st err = Returns (mkbegin 0 lzma st1 err)) /\
  (0 < io_ret rd < 12 ->
     xzreader_begin lzma p st err =
     Returns (mkbegin (-1) lzma st1
                      (ERRSTR "xzreader_begin" "input too small"))) /\
  (12 <= io_ret rd -> co_ret r <> LZMA_OK ->
     xzreader_begin lzma p st err =
     Returns (mkbegin (-1) (co_strm r) st1 (ERRXZ "lzma_code" (co_ret r)))) /\
  (12 <= io_ret rd -> co_ret r = LZMA_OK -> co_avail_in r = 0%nat ->
     xzreader_begin lzma p st err = Returns (mkbegin 1 (co_strm r) st1 err)) /\
  (12 <= io_ret rd -> co_ret r = LZMA_OK -> co_avail_in r <> 0%nat ->
     xzreader_begin lzma p st err = AssertFails).
Proof.
  intros rd st1 r. unfold xzreader_begin. fold rd. fold st1. fold r.
  change (Z.of_nat LZMA_STREAM_HEADER_SIZE) with 12.
  repeat split; intros.
  - destruct (Z.ltb_spec (io_ret rd) 0); [reflexivity | lia].
  - destruct (Z.ltb_spec (io_ret rd) 0); [lia|].
    destruct (Z.eqb_spec (io_ret rd) 0); [reflexivity | lia].
  - destruct (Z.ltb_spec (io_ret rd) 0); [lia|].
    destruct (Z.eqb_spec (io_ret rd) 0); [lia|].
    destruct (Z.ltb_spec (io_ret rd) 12); [reflexivity | lia].
  - destruct (Z.ltb_spec (io_ret rd) 0); [lia|].
    destruct (Z.eqb_spec (io_ret rd) 0); [lia|].
    destruct (Z.ltb_spec (io_ret rd) 12); [lia|].
    assert (Hb : lzma_ret_eqb (co_ret r) LZMA_OK = false)
      by now apply lzma_ret_eqb_neq.
    now rewrite Hb.
  - destruct (Z.ltb_spec (io_ret rd) 0); [lia|].
    destruct (Z.eqb_spec (io_ret rd) 0); [lia|].
    destruct (Z.ltb_spec (io_ret rd) 12); [lia|].
    assert (Hb : lzma_ret_eqb (co_ret r) LZMA_OK = true)
      by now apply lzma_ret_eqb_eq.
    rewrite Hb. simpl.
    match goal with Hz : co_avail_in r = 0%nat |- _ => now rewrite Hz end.
  - destruct (Z.ltb_spec (io_ret rd) 0); [lia|].
    destruct (Z.eqb_spec (io_ret rd) 0); [lia|].
    destruct (Z.ltb_spec (io_ret rd) 12); [lia|].
    assert (Hb : lzma_ret_eqb (co_ret r) LZMA_OK = true)
      by now apply lzma_ret_eqb_eq.
    rewrite Hb. simpl.
    destruct (Nat.eqb_spec (co_avail_in r) 0); [contradiction | reflexivity].
Qed.

(** [xzreader_begin] returns 1, 0 or -1, touches no source but its own, and
    leaves [err] as it was unless it returns -1. *)
Lemma xzreader_begin_rc (lzma : E) (p : fda_ptr) (st : store D)
    (err : errinfo) (b : begin_result) :
  xzreader_begin lzma p st err = Returns b ->
  (bg_rc b = 1 \/ bg_rc b = 0 \/ bg_rc b = -1) /\
  (bg_rc b <> -1 -> bg_err b = err) /\
  bg_store b = upd st p (io_fda (reada (st p) LZMA_STREAM_HEADER_SIZE)).
Proof.
  unfold xzreader_begin.
  repeat match goal with
         | |- context [if ?c then _ else _] => destruct c
         end; intros Heq; inversion Heq; subst; simpl;
    repeat split; auto; intros; congruence.
Qed.

Lemma xzreader_begin_fuel (lzma : E) (p : fda_ptr) (st : store D)
    (err : errinfo) :
  xzreader_begin lzma p st err <> OutOfFuel.
Proof.
  unfold xzreader_begin.
  repeat match goal with
         | |- context [if ?c then _ else _] => destruct c
         end; discriminate.
Qed.

(** ** Open *)

(** C3 (as amended).  Once [lzma_stream_decoder] has constructed the
    decoder, [xzreader_open] is decided by the header probe:
    (1) [reada] yields no byte: open returns 0 ("empty"), constructs no
        reader (the handle is as before) and sets no error;
    (2) [reada] yields at least one byte but fewer than the header size:
        open returns -1 with the error "input too small";
    (3) [reada] yields a whole header: the header is fed to the decoder
        with no room for output; if the decoder rejects it, open returns -1
        with the decoder's error; if the decoder accepts it (having consumed
        it whole), open returns 1 with a reader whose [eof] flag is false
        when [malloc] succeeds, and returns -1 with the error of [malloc],
        the handle as before, when [malloc] fails. *)
Theorem open_outcomes (zp : option (xzreader E)) (p : fda_ptr)
    (st : store D) (err : errinfo) (e0 : E) :
  lzma_stream_decoder MEMLIMIT 0 = (LZMA_OK, e0) ->
  let rd := reada (st p) LZMA_STREAM_HEADER_SIZE in
  let st1 := upd st p (io_fda rd) in
  let r := lzma_code e0 (io_bytes rd) 0 in
  (io_ret rd = 0 ->
     xzreader_open zp p st err = Returns (mkopen 0 zp st1 err)) /\
  (0 < io_ret rd < Z.of_nat LZMA_STREAM_HEADER_SIZE ->
     xzreader_open zp p st err =
     Returns (mkopen (-1) zp st1
                     (ERRSTR "xzreader_begin" "input too small"))) /\
  (Z.of_nat LZMA_STREAM_HEADER_SIZE <= io_ret rd -> co_ret r <> LZMA_OK ->
     xzreader_open zp p st err =
     Returns (mkopen (-1) zp st1 (ERRXZ "lzma_code" (co_ret r)))) /\
  (Z.of_nat LZMA_STREAM_HEADER_SIZE <= io_ret rd -> co_ret r = LZMA_OK ->
   co_avail_in r = 0%nat -> malloc = MallocOk ->
     xzreader_open zp p st err =
     Returns (mkopen 1 (Some (mkz p (co_strm r) false)) st1 err)) /\
  (Z.of_nat LZMA_STREAM_HEADER_SIZE <= io_ret rd -> co_ret r = LZMA_OK ->
   co_avail_in r = 0%nat -> forall errno, malloc = MallocFails errno ->
     xzreader_open zp p st err =
     Returns (mkopen (-1) zp st1 (ERRNO "malloc" errno))).
Proof.
  intros Hdec rd st1 r.
  destruct (xzreader_begin_cases e0 p st err)
    as (_ & H0 & Hsmall & Hrej & Hacc & _).
  fold rd in H0, Hsmall, Hrej, Hacc. fold st1 in H0, Hsmall, Hrej, Hacc.
  fold r in Hrej, Hacc.
  change (Z.of_nat LZMA_STREAM_HEADER_SIZE) with 12.
  unfold xzreader_open. rewrite Hdec. simpl.
  repeat split.
  - intros Hn. now rewrite (H0 Hn).
  - intros Hn. now rewrite (Hsmall Hn).
  - intros Hn Hr. now rewrite (Hrej Hn Hr).
  - intros Hn Hr Ha Hm. rewrite (Hacc Hn Hr Ha). simpl. now rewrite Hm.
  - intros Hn Hr Ha errno Hm. rewrite (Hacc Hn Hr Ha). simpl. now rewrite Hm.
Qed.

(** C10.  [xzreader_open] stores a reader in the caller's handle only when
    it returns 1.  When it returns 0 or -1 (whatever failed: the decoder's
    construction, the read, the header, [malloc]) the handle is as it was
    before the call. *)
Theorem open_sets_handle_only_on_success (zp : option (xzreader E))
    (p : fda_ptr) (st : store D) (err : errinfo) (o : open_result) :
  xzreader_open zp p st err = Returns o ->
  (op_rc o = 1 /\ malloc = MallocOk /\
   exists e, op_zp o = Some (mkz p e false)) \/
  ((op_rc o = 0 \/ op_rc o = -1) /\ op_zp o = zp).
Proof.
  unfold xzreader_open.
  destruct (lzma_stream_decoder MEMLIMIT 0) as [zret lzma].
  destruct (negb (lzma_ret_eqb zret LZMA_OK)).
  - intros Heq. inversion Heq; subst; simpl. right. auto.
  - destruct (xzreader_begin lzma p st err) as [b| |] eqn:Hb;
      try discriminate.
    destruct (xzreader_begin_rc _ _ _ _ Hb) as (Hrc & _ & _).
    destruct (Z.leb_spec (bg_rc b) 0) as [Hle|Hgt].
    + intros Heq. inversion Heq; subst; simpl. right. split; [lia | auto].
    + destruct malloc as [|errno] eqn:Hm;
        intros Heq; inversion Heq; subst; simpl.
      * left. repeat split. now exists (bg_lzma b).
      * right. auto.
Qed.

(** ** Reopen *)



(** ** Read: the loop *)

Lemma iter_steps_loop (err : errinfo) k s s' :
  iter_steps err k s s' ->
  forall fuel,
    xzreader_read_loop (k + fuel) s err = xzreader_read_loop fuel s' err.
Proof.
  induction 1 as [s|k s s1 s2 Hit _ IH]; intros fuel; [reflexivity|].
  simpl. rewrite Hit. apply IH.
Qed.

Lemma iter_steps_snoc (err : errinfo) k s s1 s2 :
  iter_steps err k s s1 ->
  xzreader_read_iter s1 err = Continue s2 ->
  iter_steps err (S k) s s2.
Proof.
  induction 1 as [s|k s sa sb Hit _ IH]; intros Hlast.
  - eapply steps_S; [eassumption | constructor].
  - eapply steps_S; [eassumption | auto].
Qed.

Lemma iter_steps_break (err : errinfo) k s s' r fuel :
  iter_steps err k s s' ->
  xzreader_read_iter s' err = Break r ->
  (k < fuel)%nat ->
  xzreader_read_loop fuel s err = Returns r.
Proof.
  intros Hsteps Hbrk Hlt.
  replace fuel with (k + S (fuel - S k))%nat by lia.
  rewrite (iter_steps_loop Hsteps). simpl. now rewrite Hbrk.
Qed.

(** An iteration after which the loop goes on: [peeka] made bytes visible,
    the decoder returned [LZMA_OK] and left room in the buffer, and the new
    loop state is the old one with the window shrunk, the output appended
    and the counts updated. *)
Lemma read_iter_continue (s s1 : loop_state) (err : errinfo) :
  xzreader_read_iter s err = Continue s1 ->
  let p := z_fda (ls_z s) in
  let r := iter_code s in
  0 < io_ret (iter_peek s) /\
  co_ret r = LZMA_OK /\ z_eof (ls_z s) = false /\ co_avail_out r <> 0%nat /\
  s1 = mkloop (mkz p (co_strm r) false)
              (upd (ls_store s) p
                   (shrink_window (io_fda (iter_peek s)) (co_avail_in r)))
              (ls_out s ++ co_written r) (co_avail_out r)
              (ls_total s + (ls_size s - co_avail_out r)).
Proof.
  intros Hit p r. unfold xzreader_read_iter in Hit. fold r in Hit. fold p in Hit.
  destruct (Z.ltb_spec (io_ret (iter_peek s)) 0); [discriminate|].
  destruct (Z.eqb_spec (io_ret (iter_peek s)) 0); [discriminate|].
  destruct (lzma_ret_eqb (co_ret r) LZMA_STREAM_END) eqn:Hend;
    destruct (lzma_ret_eqb (co_ret r) LZMA_OK) eqn:Hok;
    simpl in Hit; try discriminate.
  - rewrite andb_false_r in Hit. discriminate.
  - rewrite andb_false_r in Hit. discriminate.
  - destruct (Nat.eqb_spec (co_avail_out r) 0); simpl in Hit;
      [discriminate|].
    destruct (z_eof (ls_z s)) eqn:Hz; simpl in Hit; [discriminate|].
    apply lzma_ret_eqb_eq in Hok.
    inversion Hit; subst. repeat split; auto. lia.
Qed.

(** An iteration that ends the call: the three failures, or the return of
    the count. *)
Lemma read_iter_break (s : loop_state) (r : read_result) (err : errinfo) :
  xzreader_read_iter s err = Break r ->
  let p := z_fda (ls_z s) in
  let pk := iter_peek s in
  let c := iter_code s in
  let z' := mkz p (co_strm c)
                (if lzma_ret_eqb (co_ret c) LZMA_STREAM_END then true
                 else z_eof (ls_z s)) in
  (io_ret pk < 0 /\
   r = mkread (-1) (ls_out s) (ls_z s) (upd (ls_store s) p (io_fda pk))
              (ERRNO "read" (io_errno pk))) \/
  (io_ret pk = 0 /\
   r = mkread (-1) (ls_out s) (ls_z s) (upd (ls_store s) p (io_fda pk))
              (ERRSTR "xzreader_read" "unexpected EOF")) \/
  (0 < io_ret pk /\ co_ret c <> LZMA_STREAM_END /\ co_ret c <> LZMA_OK /\
   r = mkread (-1) (ls_out s ++ co_written c) z'
              (upd (ls_store s) p (io_fda pk))
              (ERRXZ "lzma_code" (co_ret c))) \/
  (0 < io_ret pk /\ (co_ret c = LZMA_STREAM_END \/ co_ret c = LZMA_OK) /\
   (co_avail_out c = 0%nat \/ z_eof z' = true) /\
   r = mkread (Z.of_nat (ls_total s + (ls_size s - co_avail_out c)))
              (ls_out s ++ co_written c) z'
              (upd (ls_store s) p
                   (shrink_window (io_fda pk) (co_avail_in c)))
              err).
Proof.
  intros Hit p pk c z'. unfold xzreader_read_iter in Hit.
  fold p in Hit. fold pk in Hit. fold c in Hit. fold z' in Hit.
  destruct (Z.ltb_spec (io_ret pk) 0).
  { left. inversion Hit; auto. }
  destruct (Z.eqb_spec (io_ret pk) 0).
  { right; left. inversion Hit; auto. }
  right; right.
  subst z'.
  destruct (lzma_ret_eqb_spec (co_ret c) LZMA_STREAM_END) as [Hend|Hend];
    destruct (lzma_ret_eqb_spec (co_ret c) LZMA_OK) as [Hok|Hok];
    simpl in Hit.
  - congruence.
  - right. rewrite andb_false_r in Hit. inversion Hit.
    repeat split; auto; lia.
  - right.
    destruct (Nat.eqb_spec (co_avail_out c) 0); simpl in Hit.
    + inversion Hit. repeat split; auto; lia.
    + destruct (z_eof (ls_z s)) eqn:Hz; simpl in Hit; [|discriminate].
      inversion Hit. repeat split; auto; lia.
  - left. inversion Hit. repeat split; auto; lia.
Qed.

(** The iterations of one call work on one source; they leave the other
    sources alone, and only add to the buffer and to the count. *)
Lemma iter_steps_frame (err : errinfo) k s s' :
  iter_steps err k s s' ->
  z_fda (ls_z s') = z_fda (ls_z s) /\
  (forall q, q <> z_fda (ls_z s) -> ls_store s' q = ls_store s q) /\
  (exists w, ls_out s' = ls_out s ++ w) /\
  (ls_total s <= ls_total s')%nat.
Proof.
  induction 1 as [s|k s s1 s2 Hit _ IH].
  - repeat split; auto. exists []. now rewrite app_nil_r.
  - destruct (read_iter_continue _ _ Hit) as (_ & _ & _ & _ & Hs1).
    destruct IH as (Hp & Hst & (w & Hw) & Htot).
    subst s1. simpl in *. repeat split; auto.
    + intros q Hq. rewrite (Hst q Hq). now apply upd_other.
    + exists (co_written (iter_code s) ++ w). now rewrite Hw, app_assoc.
    + lia.
Qed.


(** ** Read: single calls *)

(** C6.  On a reader whose [eof] flag is set, [xzreader_read] returns 0 and
    nothing else happens: the reader, every source (its window included) and
    [err] are as before, and nothing is stored in the buffer.  This is so
    whatever [reada], [peeka], [lzma_code] and libc are (the equation holds
    for all implementations [RD'], [LZ'], [LC'], so none of them is called),
    for every buffer size and without any iteration of the loop ([fuel] may
    be 0); and it stays so for any number of further calls. *)
Theorem read_after_completion_is_noop (z : xzreader E) (st : store D)
    (err : errinfo) :
  z_eof z = true ->
  (forall (RD' : Reada D) (LZ' : Lzma E) (LC' : Libc) fuel size,
     @xzreader_read D E RD' LZ' LC' fuel z st size err =
     Returns (mkread 0 [] z st err)) /\
  (forall fuel sizes,
     read_calls fuel z st err sizes =
     Returns (map (fun _ => 0) sizes, z, st, err)).
Proof.
  intros Hz.
  assert (Hone : forall (RD' : Reada D) (LZ' : Lzma E) (LC' : Libc) fuel size,
             @xzreader_read D E RD' LZ' LC' fuel z st size err =
             Returns (mkread 0 [] z st err)).
  { intros. unfold xzreader_read. now rewrite Hz. }
  split; [exact Hone|].
  intros fuel sizes. induction sizes as [|size sizes IH]; [reflexivity|].
  simpl. rewrite Hone. simpl. now rewrite IH.
Qed.

(** C4.  In a call of [xzreader_read] on a reader whose [eof] flag is clear,
    if [peeka] returns 0 in some iteration of the loop (the first one, or
    after [k] iterations that went on), the call returns -1 with the error
    "unexpected EOF" of [xzreader_read]; it does not return a byte count. *)
Theorem read_unexpected_eof (fuel : nat) (z : xzreader E) (st : store D)
    (size : nat) (err : errinfo) (k : nat) (s' : loop_state) :
  z_eof z = false -> (0 < size)%nat ->
  iter_steps err k (mkloop z st [] size 0) s' ->
  io_ret (iter_peek s') = 0 ->
  (k < fuel)%nat ->
  xzreader_read fuel z st size err =
  Returns (mkread (-1) (ls_out s') (ls_z s')
                  (upd (ls_store s') (z_fda (ls_z s')) (io_fda (iter_peek s')))
                  (ERRSTR "xzreader_read" "unexpected EOF")).
Proof.
  intros Hz Hsize Hsteps Hpk Hfuel.
  unfold xzreader_read. rewrite Hz.
  destruct (Nat.eqb_spec size 0) as [->|_]; [lia|].
  apply (iter_steps_break Hsteps); [|assumption].
  unfold xzreader_read_iter. rewrite Hpk. reflexivity.
Qed.

(** C9.  A call of [xzreader_read] that fails after one or more iterations
    went on returns -1 and nothing else: the count accumulated so far
    ([total], in the loop state [s'] the failing iteration starts from) is
    not returned.  What the earlier iterations did stays done: the buffer
    still starts with the bytes they stored, and the source is as the last
    of them left it (its window shrunk by what the decoder consumed), seen
    since only by the [peeka] of the failing iteration. *)
Theorem read_failure_keeps_side_effects (fuel : nat) (z : xzreader E)
    (st : store D) (size : nat) (err : errinfo) (k : nat)
    (sp s' : loop_state) (r : read_result) :
  z_eof z = false -> (0 < size)%nat ->
  iter_steps err k (mkloop z st [] size 0) sp ->
  xzreader_read_iter sp err = Continue s' ->
  xzreader_read_iter s' err = Break r ->
  rd_ret r < 0 ->
  (S k < fuel)%nat ->
  let c := iter_code sp in
  xzreader_read fuel z st size err = Returns r /\
  rd_ret r = -1 /\ rd_ret r <> Z.of_nat (ls_total s') /\
  (exists w, rd_buf r = (ls_out sp ++ co_written c) ++ w) /\
  rd_store r (z_fda z) =
    io_fda (peeka (shrink_window (io_fda (iter_peek sp)) (co_avail_in c)) 4) /\
  (forall q, q <> z_fda z -> rd_store r q = st q) /\
  (rd_err r = ERRNO "read" (io_errno (iter_peek s')) \/
   rd_err r = ERRSTR "xzreader_read" "unexpected EOF" \/
   rd_err r = ERRXZ "lzma_code" (co_ret (iter_code s'))).
Proof.
  intros Hz Hsize Hsteps Hcont Hbrk Hneg Hfuel c.
  assert (Hall : iter_steps err (S k) (mkloop z st [] size 0) s')
    by (eapply iter_steps_snoc; eassumption).
  split.
  { unfold xzreader_read. rewrite Hz.
    destruct (Nat.eqb_spec size 0) as [->|_]; [lia|].
    now apply (iter_steps_break Hall). }
  destruct (iter_steps_frame Hsteps) as (Hp & Hst & _ & _). simpl in Hp, Hst.
  destruct (read_iter_continue _ _ Hcont) as (_ & _ & _ & _ & Hs').
  fold c in Hs'. rewrite Hp in Hs'.
  assert (Hpk' : iter_peek s' =
                 peeka (shrink_window (io_fda (iter_peek sp)) (co_avail_in c)) 4).
  { subst s'. unfold iter_peek at 1. simpl. now rewrite upd_same. }
  assert (Hstore : forall f q, q <> z_fda z ->
            upd (ls_store s') (z_fda (ls_z s')) f q = st q).
  { intros f q Hq. subst s'. simpl. rewrite !upd_other by assumption.
    now apply Hst. }
  assert (Hsame : forall f,
            upd (ls_store s') (z_fda (ls_z s')) f (z_fda z) = f).
  { intros f. subst s'. simpl. apply upd_same. }
  assert (Htot : forall x, x = -1 -> x <> Z.of_nat (ls_total s'))
    by (intros; lia).
  assert (Hout : ls_out s' = ls_out sp ++ co_written c)
    by (subst s'; reflexivity).
  destruct (read_iter_break _ _ Hbrk)
    as [(_ & ->)|[(_ & ->)|[(_ & _ & _ & ->)|(_ & _ & _ & ->)]]]; simpl in *.
  - repeat split; auto.
    + exists []. now rewrite app_nil_r.
    + now rewrite Hsame, Hpk'.
  - repeat split; auto.
    + exists []. now rewrite app_nil_r.
    + now rewrite Hsame, Hpk'.
  - repeat split; auto.
    + exists (co_written (iter_code s')). now rewrite Hout.
    + now rewrite Hsame, Hpk'.
  - lia.
Qed.

(** The loop keeps [total + size] at the capacity of the buffer, as long as
    the decoder never reports more room than it was given; it returns a
    count below the capacity only after the decoder returned
    [LZMA_STREAM_END] in one of its iterations. *)
Lemma read_loop_post (err : errinfo) :
  (forall e inp n, (co_avail_out (lzma_code e inp n) <= n)%nat) ->
  forall fuel s r,
    z_eof (ls_z s) = false ->
    xzreader_read_loop fuel s err = Returns r ->
    (rd_ret r = -1 /\
     (rd_err r = ERRSTR "xzreader_read" "unexpected EOF" \/
      (exists e, rd_err r = ERRNO "read" e) \/
      (exists ret, rd_err r = ERRXZ "lzma_code" ret))) \/
    (exists t, rd_ret r = Z.of_nat t /\ rd_err r = err /\
       (ls_total s <= t <= ls_total s + ls_size s)%nat /\
       ((t < ls_total s + ls_size s)%nat ->
        z_eof (rd_z r) = true /\
        exists k s', iter_steps err k s s' /\
          0 < io_ret (iter_peek s') /\
          co_ret (iter_code s') = LZMA_STREAM_END)).
Proof.
  intros Hroom. induction fuel as [|fuel IH]; intros s r Hz Hloop;
    [discriminate|].
  simpl in Hloop.
  destruct (xzreader_read_iter s err) as [r'|s1] eqn:Hit.
  - inversion Hloop; subst r'. clear Hloop.
    pose proof (Hroom (z_lzma (ls_z s)) (window (io_fda (iter_peek s)))
                      (ls_size s)) as Hle.
    fold (iter_code s) in Hle.
    destruct (read_iter_break _ _ Hit)
      as [(_ & ->)|[(_ & ->)|[(_ & _ & _ & ->)|(Hpk & Hret & Hstop & ->)]]];
      simpl.
    + left. split; auto. right; left. eauto.
    + left. split; auto.
    + left. split; auto. right; right. eauto.
    + right. eexists. split; [reflexivity|]. split; [reflexivity|].
      split; [lia|].
      intros Hlt. rewrite Hz in Hstop.
      destruct (lzma_ret_eqb_spec (co_ret (iter_code s)) LZMA_STREAM_END)
        as [Hend|Hend].
      * split; [reflexivity|].
        exists 0%nat, s. split; [constructor|]. split; assumption.
      * destruct Hstop as [Hstop|Hstop]; [lia | discriminate].
  - pose proof (Hroom (z_lzma (ls_z s)) (window (io_fda (iter_peek s)))
                      (ls_size s)) as Hle.
    fold (iter_code s) in Hle.
    destruct (read_iter_continue _ _ Hit) as (_ & _ & _ & _ & Hs1).
    assert (Hz1 : z_eof (ls_z s1) = false) by (subst s1; reflexivity).
    destruct (IH s1 r Hz1 Hloop) as [Hfail|(t & Hret & Herr & Hbnd & Hshort)].
    + left. exact Hfail.
    + right. exists t. subst s1. simpl in *.
      split; [assumption|]. split; [assumption|]. split; [lia|].
      intros Hlt.
      destruct Hshort as (Heof & k & s' & Hsteps & Hpk & Hend); [lia|].
      split; [assumption|].
      exists (S k), s'. split; [|auto].
      eapply steps_S; eassumption.
Qed.

(** C2 (as amended).  For a decoder that never reports more room than it was
    given, a call of [xzreader_read] with a buffer of [size > 0] bytes that
    returns either fails, returning -1 with an error set, or returns a
    count [n] with [0 <= n <= size] and [err] untouched; and [n < size]
    only when the [eof] flag is set on return: because it was set at entry
    (then [n = 0]), or because the decoder returned [LZMA_STREAM_END] in an
    iteration of this call. *)
Theorem read_postcondition (fuel : nat) (z : xzreader E) (st : store D)
    (size : nat) (err : errinfo) (r : read_result) :
  (forall e inp n, (co_avail_out (lzma_code e inp n) <= n)%nat) ->
  (0 < size)%nat ->
  xzreader_read fuel z st size err = Returns r ->
  (rd_ret r = -1 /\
   (rd_err r = ERRSTR "xzreader_read" "unexpected EOF" \/
    (exists e, rd_err r = ERRNO "read" e) \/
    (exists ret, rd_err r = ERRXZ "lzma_code" ret))) \/
  (0 <= rd_ret r <= Z.of_nat size /\ rd_err r = err /\
   (rd_ret r < Z.of_nat size ->
    z_eof (rd_z r) = true /\
    ((z_eof z = true /\ rd_ret r = 0) \/
     (z_eof z = false /\
      exists k s', iter_steps err k (mkloop z st [] size 0) s' /\
        0 < io_ret (iter_peek s') /\
        co_ret (iter_code s') = LZMA_STREAM_END)))).
Proof.
  intros Hroom Hsize Hread. unfold xzreader_read in Hread.
  destruct (z_eof z) eqn:Hz.
  - inversion Hread; subst; simpl. right.
    split; [lia|]. split; [reflexivity|]. intros _. auto.
  - destruct (Nat.eqb_spec size 0) as [->|_]; [lia|].
    destruct (read_loop_post err Hroom fuel (mkloop z st [] size 0) Hz Hread)
      as [Hfail|(t & Hret & Herr & Hbnd & Hshort)]; [left; exact Hfail|].
    right. simpl in *. rewrite Hret.
    split; [lia|]. split; [assumption|].
    intros Hlt. destruct Hshort as (Heof & Hend); [lia|].
    split; [assumption|]. right. split; [reflexivity | assumption].
Qed.


(** ** Read: the accounting of the window *)

(** C7 (as amended).  After every decode step of [xzreader_read] that the
    decoder does not fail (it returns [LZMA_OK] or [LZMA_STREAM_END]) and
    in which it reports no more input left than it was given, the window
    that was offered to the decoder has lost, from its front, exactly the
    bytes the decoder consumed: the bytes left are the last bytes of the
    offered window, untouched, the buffer and the descriptor are not
    touched, and no other source is.  If the decoder consumed the whole
    window, [cur] and [end] are both [NULL] (an empty window); otherwise
    [end] stays and [cur] moves forward by the consumed amount, not beyond
    [end]. *)
Theorem window_accounting (s : loop_state) (err : errinfo) :
  let p := z_fda (ls_z s) in
  let f := io_fda (iter_peek s) in
  let r := iter_code s in
  let consumed := (length (window f) - co_avail_in r)%nat in
  0 < io_ret (iter_peek s) ->
  wf_fda f ->
  (co_avail_in r <= length (window f))%nat ->
  co_ret r = LZMA_OK \/ co_ret r = LZMA_STREAM_END ->
  let f' := it_store (xzreader_read_iter s err) p in
  window f' = skipn consumed (window f) /\
  (length (window f') + consumed = length (window f))%nat /\
  buf f' = buf f /\ fd f' = fd f /\
  (co_avail_in r = 0%nat -> cur f' = None /\ end_ f' = None) /\
  (co_avail_in r <> 0%nat ->
   end_ f' = end_ f /\
   exists c e, cur f = Some c /\ end_ f = Some e /\
     cur f' = Some (c + consumed)%nat /\ (c + consumed <= e)%nat) /\
  (forall q, q <> p -> it_store (xzreader_read_iter s err) q = ls_store s q).
Proof.
  intros p f r consumed Hpk Hwf Hle Hret f'.
  assert (Hstore : it_store (xzreader_read_iter s err) =
                   upd (ls_store s) p (shrink_window f (co_avail_in r))).
  { destruct (xzreader_read_iter s err) as [r'|s1] eqn:Hit; simpl.
    - destruct (read_iter_break _ _ Hit)
        as [(Hneg & _)|[(Hz & _)|[(_ & Hne & Hno & _)|(_ & _ & _ & ->)]]];
        try lia; [|reflexivity].
      fold r in Hne, Hno. destruct Hret; contradiction.
    - destruct (read_iter_continue _ _ Hit) as (_ & _ & _ & _ & ->).
      reflexivity. }
  subst f'. rewrite Hstore, upd_same.
  pose proof (window_shrink f Hwf Hle) as Hwin.
  pose proof (window_length f Hwf) as Hlen.
  split; [exact Hwin|].
  split; [rewrite Hwin, length_skipn; subst consumed; lia|].
  unfold shrink_window.
  destruct (Nat.eqb_spec (co_avail_in r) 0) as [Hz|Hnz]; simpl.
  - repeat split; auto; try contradiction.
    intros q Hq. now apply upd_other.
  - split; [reflexivity|]. split; [reflexivity|].
    split; [intros; contradiction|].
    split.
    + intros _. split; [reflexivity|].
      unfold wf_fda in Hwf. unfold ptr_diff in Hlen.
      destruct (cur f) as [c|] eqn:Hc, (end_ f) as [e|] eqn:He;
        try contradiction; try lia.
      exists c, e. simpl. repeat split; auto.
      * f_equal. subst consumed. lia.
      * subst consumed. lia.
    + intros q Hq. now apply upd_other.
Qed.


End ReaderFacts.

(** * Decoding frames, for a source and a decoder that keep their promises *)

Section Decoding.

Context {D E : Type} {RD : Reada D} {LZ : Lzma E} {LC : Libc}.

Variable holds : fda D -> list byte -> Prop.
Variable is_frame : list byte -> list byte -> Prop.
Variable Ready : E -> Prop.
Variable Decoding : E -> list byte -> list byte -> nat -> Prop.

Hypothesis SL : SourceLaws holds.
Hypothesis EL : EngineLaws is_frame Ready Decoding.

(** The header probe at the start of a valid frame: it returns 1, consumes
    the header and nothing else, and leaves the decoder inside the frame. *)
Lemma begin_decodes (e : E) (p : fda_ptr) (st : store D) (err : errinfo)
    (fr d rest : list byte) :
  Ready e -> is_frame fr d -> holds (st p) (fr ++ rest) ->
  exists e' st' m,
    xzreader_begin e p st err = Returns (mkbegin 1 e' st' err) /\
    Decoding e' (skipn LZMA_STREAM_HEADER_SIZE fr) d m /\
    holds (st' p) (skipn LZMA_STREAM_HEADER_SIZE fr ++ rest) /\
    (forall q, q <> p -> st' q = st q).
Proof.
  intros Hr Hf Hh.
  pose proof (eng_frame_length EL Hf) as Hlen.
  destruct (eng_header EL Hr Hf) as (Hok & Hin & _ & m & Hdec).
  destruct (src_reada SL (n := LZMA_STREAM_HEADER_SIZE) Hh)
    as (Hret & Hbytes & Hh'); [unfold LZMA_STREAM_HEADER_SIZE; lia|].
  rewrite firstn_app in Hret, Hbytes.
  replace (LZMA_STREAM_HEADER_SIZE - length fr)%nat with 0%nat in Hret, Hbytes
    by lia.
  rewrite firstn_O, app_nil_r in Hret, Hbytes.
  rewrite length_firstn, Nat.min_l in Hret by lia.
  rewrite skipn_app in Hh'.
  replace (LZMA_STREAM_HEADER_SIZE - length fr)%nat with 0%nat in Hh' by lia.
  rewrite skipn_O in Hh'.
  destruct (xzreader_begin_cases e p st err) as (_ & _ & _ & _ & Hacc & _).
  rewrite Hbytes in Hacc.
  eexists _, _, m. split; [|split; [exact Hdec|split]].
  - apply Hacc; [rewrite Hret; unfold LZMA_STREAM_HEADER_SIZE; lia
                | exact Hok | exact Hin].
  - now rewrite upd_same.
  - intros q Hq. now apply upd_other.
Qed.

(** One decode step inside a frame, from the laws: [peeka] finds bytes, the
    decoder produces the next bytes [w] of the content and stops at the end
    of the frame at the latest, and the shrunk window leaves the source
    with what is left of the frame, then [rest]. *)
Lemma decode_step (s : loop_state) (rin rout rest : list byte) (m : nat) :
  Decoding (z_lzma (ls_z s)) rin rout m ->
  holds (ls_store s (z_fda (ls_z s))) (rin ++ rest) ->
  (0 < ls_size s)%nat ->
  let c := iter_code s in
  0 < io_ret (iter_peek s) /\
  exists w rin' rout',
    rout = w ++ rout' /\ co_written c = w /\
    (length w <= ls_size s)%nat /\
    co_avail_out c = (ls_size s - length w)%nat /\
    holds (shrink_window (io_fda (iter_peek s)) (co_avail_in c))
          (rin' ++ rest) /\
    ((co_ret c = LZMA_STREAM_END /\ rin' = [] /\ rout' = []) \/
     (co_ret c = LZMA_OK /\
      exists m', (m' < m)%nat /\ Decoding (co_strm c) rin' rout' m')).
Proof.
  intros Hdec Hh Hsize c.
  pose proof (eng_pending EL Hdec) as Hne.
  assert (Hne' : rin ++ rest <> []) by (destruct rin; simpl; congruence).
  destruct (src_peeka SL (n := 4) Hh) as (Hh1 & _ & Hpk); [lia|].
  destruct (Hpk Hne') as (Hret & Hwin). clear Hpk. fold (iter_peek s) in *.
  split; [exact Hret|].
  destruct (src_window SL Hh1) as (t & Ht).
  destruct (eng_step EL Hdec Hwin (eq_sym Ht) Hsize)
    as (ci & k & Hci & Hcr & Hin & Hkn & Hkr & Hout & Hw & Hcases).
  fold (iter_code s) in Hin, Hout, Hw, Hcases. fold c in Hin, Hout, Hw, Hcases.
  exists (firstn k rout), (skipn ci rin), (skipn k rout).
  assert (Hlenw : length (firstn k rout) = k)
    by (rewrite length_firstn; lia).
  split; [now rewrite firstn_skipn|]. split; [exact Hw|].
  split; [lia|]. split; [now rewrite Hlenw|].
  split.
  - pose proof (src_shrink SL (a := co_avail_in c) Hh1) as Hsh.
    rewrite Hin in Hsh |- *.
    replace (length (window (io_fda (iter_peek s))) -
             (length (window (io_fda (iter_peek s))) - ci))%nat
      with ci in Hsh by lia.
    rewrite skipn_app in Hsh.
    replace (ci - length rin)%nat with 0%nat in Hsh by lia.
    simpl in Hsh. apply Hsh. lia.
  - destruct Hcases as [(Hend & Hc & Hk)|(Hok & m' & Hm' & Hdec')].
    + left. split; [exact Hend|]. subst ci k. now rewrite !skipn_all.
    + right. split; [exact Hok|]. now exists m'.
Qed.

(** The loop of [xzreader_read] inside a frame: with enough fuel it returns
    the count of the bytes [w] it stored, the next bytes of the content;
    either the frame is complete, the whole remaining content was stored
    and the source holds exactly [rest], or the buffer is full and reader
    and source are further inside the frame. *)
Lemma read_loop_decodes (err : errinfo) (rest : list byte) :
  forall fuel s rin rout m,
    z_eof (ls_z s) = false ->
    Decoding (z_lzma (ls_z s)) rin rout m ->
    holds (ls_store s (z_fda (ls_z s))) (rin ++ rest) ->
    (0 < ls_size s)%nat -> (m < fuel)%nat ->
    exists r w,
      xzreader_read_loop fuel s err = Returns r /\
      rd_ret r = Z.of_nat (ls_total s + length w) /\
      rd_buf r = ls_out s ++ w /\
      (length w <= ls_size s)%nat /\
      rd_err r = err /\
      z_fda (rd_z r) = z_fda (ls_z s) /\
      (forall q, q <> z_fda (ls_z s) -> rd_store r q = ls_store s q) /\
      ((z_eof (rd_z r) = true /\ w = rout /\
        holds (rd_store r (z_fda (ls_z s))) rest) \/
       (z_eof (rd_z r) = false /\ length w = ls_size s /\
        exists rin' rout' m',
          (m' < m)%nat /\ rout = w ++ rout' /\
          Decoding (z_lzma (rd_z r)) rin' rout' m' /\
          holds (rd_store r (z_fda (ls_z s))) (rin' ++ rest))).
Proof.
  induction fuel as [|fuel IH]; intros s rin rout m Hz Hdec Hh Hsize Hfuel;
    [lia|].
  destruct (decode_step s rest Hdec Hh Hsize)
    as (Hpk & w & rin' & rout' & Hrout & Hw & Hlw & Hout & Hh' & Hcases).
  simpl. destruct (xzreader_read_iter s err) as [r|s1] eqn:Hit.
  - destruct (read_iter_break _ _ Hit)
      as [(Hneg & _)|[(Hzero & _)|[(_ & Hne & Hno & _)|(_ & _ & Hstop & ->)]]];
      try lia.
    { destruct Hcases as [(Hend & _)|(Hok & _)]; contradiction. }
    exists (mkread (Z.of_nat (ls_total s +
                               (ls_size s - co_avail_out (iter_code s))))
                   (ls_out s ++ co_written (iter_code s))
                   (mkz (z_fda (ls_z s)) (co_strm (iter_code s))
                        (if lzma_ret_eqb (co_ret (iter_code s)) LZMA_STREAM_END
                         then true else z_eof (ls_z s)))
                   (upd (ls_store s) (z_fda (ls_z s))
                        (shrink_window (io_fda (iter_peek s))
                                       (co_avail_in (iter_code s))))
                   err), w.
    simpl. rewrite upd_same, Hw, Hout.
    split; [reflexivity|]. split; [f_equal; lia|]. split; [reflexivity|].
    split; [assumption|]. split; [reflexivity|]. split; [reflexivity|].
    split; [intros q Hq; now apply upd_other|].
    destruct Hcases as [(Hend & -> & ->)|(Hok & m' & Hm' & Hdec')].
    + left. rewrite Hend. simpl. rewrite app_nil_r in Hrout.
      repeat split; auto.
    + right. simpl in Hstop. rewrite Hok in Hstop |- *. simpl in Hstop |- *.
      rewrite Hz in Hstop. destruct Hstop as [Hstop|Hstop]; [|discriminate].
      split; [assumption|]. split; [lia|].
      exists rin', rout', m'. auto.
  - destruct (read_iter_continue _ _ Hit) as (_ & Hok & _ & Hroom & Hs1).
    destruct Hcases as [(Hend & _)|(_ & m' & Hm' & Hdec')]; [congruence|].
    assert (Hz1 : z_eof (ls_z s1) = false) by (subst s1; reflexivity).
    assert (Hp1 : z_fda (ls_z s1) = z_fda (ls_z s)) by (subst s1; reflexivity).
    assert (Hdec1 : Decoding (z_lzma (ls_z s1)) rin' rout' m')
      by (subst s1; exact Hdec').
    assert (Hh1 : holds (ls_store s1 (z_fda (ls_z s1))) (rin' ++ rest))
      by (subst s1; simpl; now rewrite upd_same).
    assert (Hsize1 : (0 < ls_size s1)%nat) by (subst s1; simpl; lia).
    destruct (IH s1 rin' rout' m' Hz1 Hdec1 Hh1 Hsize1 ltac:(lia))
      as (r & w1 & Hloop & Hret & Hbuf & Hlw1 & Herr & Hp & Hoth & Hfin).
    exists r, (w ++ w1). rewrite Hp1 in *.
    assert (Hsz : ls_size s1 = (ls_size s - length w)%nat)
      by (subst s1; simpl; lia).
    assert (Htot : ls_total s1 = (ls_total s + length w)%nat)
      by (subst s1; simpl; lia).
    assert (Hout1 : ls_out s1 = ls_out s ++ w)
      by (subst s1; simpl; now rewrite Hw).
    split; [exact Hloop|].
    split; [rewrite Hret, Htot, length_app; f_equal; lia|].
    split; [now rewrite Hbuf, Hout1, app_assoc|].
    split; [rewrite length_app; lia|].
    split; [exact Herr|]. split; [exact Hp|].
    split.
    { intros q Hq. rewrite (Hoth q Hq). subst s1. simpl. now apply upd_other. }
    destruct Hfin as [(Heof & -> & Hrest)
                     |(Heof & Hfull & rin2 & rout2 & m2 & Hm2 & -> & Hd2 & Hh2)].
    + left. repeat split; auto.
    + right. split; [assumption|]. split; [rewrite length_app; lia|].
      exists rin2, rout2, m2. repeat split; auto; try lia.
      now rewrite Hrout, app_assoc.
Qed.

(** One call of [xzreader_read] inside a frame. *)
Lemma read_decodes (err : errinfo) (rest : list byte) (fuel : nat)
    (z : xzreader E) (st : store D) (size : nat) (rin rout : list byte)
    (m : nat) :
  z_eof z = false ->
  Decoding (z_lzma z) rin rout m ->
  holds (st (z_fda z)) (rin ++ rest) ->
  (0 < size)%nat -> (m < fuel)%nat ->
  exists r w,
    xzreader_read fuel z st size err = Returns r /\
    rd_ret r = Z.of_nat (length w) /\ rd_buf r = w /\
    (length w <= size)%nat /\ rd_err r = err /\
    z_fda (rd_z r) = z_fda z /\
    (forall q, q <> z_fda z -> rd_store r q = st q) /\
    ((z_eof (rd_z r) = true /\ w = rout /\ holds (rd_store r (z_fda z)) rest) \/
     (z_eof (rd_z r) = false /\ length w = size /\
      exists rin' rout' m',
        (m' < m)%nat /\ rout = w ++ rout' /\
        Decoding (z_lzma (rd_z r)) rin' rout' m' /\
        holds (rd_store r (z_fda z)) (rin' ++ rest))).
Proof.
  intros Hz Hdec Hh Hsize Hfuel.
  unfold xzreader_read. rewrite Hz.
  destruct (Nat.eqb_spec size 0) as [->|_]; [lia|].
  destruct (read_loop_decodes err rest (mkloop z st [] size 0)
                              Hz Hdec Hh Hsize Hfuel)
    as (r & w & Hloop & Hret & Hbuf & Hrest).
  exists r, w. simpl in *. auto.
Qed.

Lemma read_frame_at_eof (fuel : nat) (z : xzreader E) (st : store D)
    (size : nat) (stdout : list byte) (err : errinfo) :
  z_eof z = true ->
  read_frame (S fuel) z st size stdout err =
  Returns (mkframe 0 stdout z st err).
Proof.
  intros Hz. cbn [read_frame]. unfold xzreader_read. rewrite Hz. reflexivity.
Qed.

(** The frame loop of [main.c] inside a frame: with enough fuel it ends
    with a last [xzreader_read] returning 0, having written the remaining
    content of the frame to [stdout], the [eof] flag set, no error, and the
    source holding exactly [rest]. *)
Lemma read_frame_decodes (err : errinfo) (rest : list byte) (size : nat) :
  (0 < size)%nat ->
  forall fuel z st rin rout m stdout,
    z_eof z = false ->
    Decoding (z_lzma z) rin rout m ->
    holds (st (z_fda z)) (rin ++ rest) ->
    (m + 2 <= fuel)%nat ->
    exists r,
      read_frame fuel z st size stdout err = Returns r /\
      fr_ret r = 0 /\ fr_out r = stdout ++ rout /\
      z_eof (fr_z r) = true /\ fr_err r = err /\
      z_fda (fr_z r) = z_fda z /\
      holds (fr_store r (z_fda z)) rest /\
      (forall q, q <> z_fda z -> fr_store r q = st q).
Proof.
  intros Hsize.
  induction fuel as [|fuel IH]; intros z st rin rout m stdout Hz Hdec Hh Hfuel;
    [lia|].
  destruct (read_decodes err rest (fuel := S fuel) (size := size)
                         z st Hz Hdec Hh Hsize ltac:(lia))
    as (r & w & Hread & Hret & Hbuf & Hlw & Herr & Hp & Hoth & Hfin).
  cbn [read_frame]. rewrite Hread.
  assert (Hw : firstn (Z.to_nat (rd_ret r)) (rd_buf r) = w).
  { rewrite Hret, Hbuf, Nat2Z.id. apply firstn_all. }
  destruct Hfin as [(Heof & Hwr & Hrest)
                   |(Heof & Hfull & rin' & rout' & m' & Hm' & Hwr & Hd' & Hh')].
  - destruct (Z.ltb_spec 0 (rd_ret r)) as [Hpos|Hzero].
    + destruct fuel as [|fuel]; [lia|].
      rewrite (read_frame_at_eof _ _ _ _ _ _ Heof), Hw, Hwr.
      eexists. split; [reflexivity|]. simpl. repeat split; auto.
    + assert (Hnil : w = [])
        by (destruct w; [reflexivity | simpl in Hret; lia]).
      eexists. split; [reflexivity|]. simpl.
      rewrite <- Hwr, Hnil, app_nil_r.
      repeat split; auto. rewrite Hret, Hnil. reflexivity.
  - destruct (Z.ltb_spec 0 (rd_ret r)) as [Hpos|Hzero]; [|lia].
    rewrite Hw, Herr. rewrite <- Hp in Hh'.
    destruct (IH (rd_z r) (rd_store r) rin' rout' m' (stdout ++ w)
                 Heof Hd' Hh' ltac:(lia))
      as (fr & Hfr & Hfret & Hfout & Hfeof & Hferr & Hfp & Hfh & Hfoth).
    exists fr. rewrite Hp in *.
    split; [exact Hfr|]. split; [exact Hfret|].
    split; [now rewrite Hfout, Hwr, app_assoc|].
    repeat split; auto.
    intros q Hq. rewrite (Hfoth q Hq). now apply Hoth.
Qed.


(** [xzreader_open] and [xzreader_reopen] at the start of a valid frame. *)
Lemma open_decodes (zp : option (xzreader E)) (p : fda_ptr) (st : store D)
    (err : errinfo) (e0 : E) (fr d rest : list byte) :
  lzma_stream_decoder MEMLIMIT 0 = (LZMA_OK, e0) ->
  malloc = MallocOk ->
  is_frame fr d -> holds (st p) (fr ++ rest) ->
  exists e' st' m,
    xzreader_open zp p st err =
    Returns (mkopen 1 (Some (mkz p e' false)) st' err) /\
    Decoding e' (skipn LZMA_STREAM_HEADER_SIZE fr) d m /\
    holds (st' p) (skipn LZMA_STREAM_HEADER_SIZE fr ++ rest) /\
    (forall q, q <> p -> st' q = st q).
Proof.
  intros Hdec Hm Hf Hh.
  pose proof (eng_fresh EL Hdec eq_refl) as Hr.
  destruct (begin_decodes p st err rest Hr Hf Hh)
    as (e' & st' & m & Hb & Hd & Hh' & Hoth).
  exists e', st', m. split; [|auto].
  unfold xzreader_open. rewrite Hdec. simpl. rewrite Hb. simpl.
  now rewrite Hm.
Qed.

Lemma reopen_decodes (z : xzreader E) (nf : option fda_ptr) (st : store D)
    (err : errinfo) (fr d rest : list byte) :
  let p := match nf with Some q => q | None => z_fda z end in
  (z_eof z = true -> Ready (z_lzma z)) ->
  (z_eof z = false -> fst (lzma_stream_decoder MEMLIMIT 0) = LZMA_OK) ->
  is_frame fr d -> holds (st p) (fr ++ rest) ->
  exists e' st' m,
    xzreader_reopen z nf st err =
    Returns (mkreopen 1 (mkz p e' false) st' err) /\
    Decoding e' (skipn LZMA_STREAM_HEADER_SIZE fr) d m /\
    holds (st' p) (skipn LZMA_STREAM_HEADER_SIZE fr ++ rest) /\
    (forall q, q <> p -> st' q = st q).
Proof.
  intros p Hreuse Hfresh Hf Hh.
  assert (Hengine : exists e,
            Ready e /\
            xzreader_reopen z nf st err =
            match xzreader_begin e p st err with
            | Returns b =>
                Returns (mkreopen (bg_rc b) (mkz p (bg_lzma b) false)
                                  (bg_store b) (bg_err b))
            | AssertFails => AssertFails
            | OutOfFuel => OutOfFuel
            end).
  { unfold xzreader_reopen. fold p.
    destruct (z_eof z) eqn:Hz.
    - exists (z_lzma z). split; [auto|].
      destruct nf; simpl; rewrite ?Hz; reflexivity.
    - specialize (Hfresh eq_refl).
      destruct (lzma_stream_decoder MEMLIMIT 0) as [zret e] eqn:Hdec.
      simpl in Hfresh. subst zret.
      exists e. split; [exact (eng_fresh EL Hdec eq_refl)|].
      destruct nf; simpl; rewrite ?Hz; reflexivity. }
  destruct Hengine as (e & Hr & ->).
  destruct (begin_decodes p st err rest Hr Hf Hh)
    as (e' & st' & m & Hb & Hd & Hh' & Hoth).
  exists e', st', m. rewrite Hb. simpl. auto.
Qed.

(** ** Whole frames *)




End Decoding.

(** * More on the calls, whatever the source and the decoder *)

Section Contracts.

Context {D E : Type} {RD : Reada D} {LZ : Lzma E} {LC : Libc}.

(** What [xzreader_open] returns, and where it leaves [err] and the
    sources. *)
Lemma xzreader_open_rc (zp : option (xzreader E)) (p : fda_ptr)
    (st : store D) (err : errinfo) (o : open_result) :
  xzreader_open zp p st err = Returns o ->
  (op_rc o = 1 \/ op_rc o = 0 \/ op_rc o = -1) /\
  (op_rc o <> -1 -> op_err o = err) /\
  (op_rc o = -1 -> In (fst (op_err o)) open_origins) /\
  (forall q, q <> p -> op_store o q = st q).
Proof.
  unfold xzreader_open.
  destruct (lzma_stream_decoder MEMLIMIT 0) as [zret lzma].
  destruct (negb (lzma_ret_eqb zret LZMA_OK)).
  { intros Heq. inversion Heq; subst; simpl.
    repeat split; auto; try congruence. }
  destruct (xzreader_begin lzma p st err) as [b| |] eqn:Hb; try discriminate.
  assert (Hst : bg_store b =
                upd st p (io_fda (reada (st p) LZMA_STREAM_HEADER_SIZE)))
    by exact (proj2 (proj2 (xzreader_begin_rc _ _ _ _ Hb))).
  assert (Hbegin : (bg_rc b = 1 /\ bg_err b = err) \/
                   (bg_rc b = 0 /\ bg_err b = err) \/
                   (bg_rc b = -1 /\
                    In (fst (bg_err b)) ["read"; "xzreader_begin"; "lzma_code"]%string)).
  { revert Hb. unfold xzreader_begin.
    repeat match goal with
           | |- context [if ?c then _ else _] => destruct c
           end; intros Heq; inversion Heq; subst; simpl; auto 10. }
  assert (Hoth : forall q, q <> p -> bg_store b q = st q)
    by (intros q Hq; rewrite Hst; now apply upd_other).
  destruct (Z.leb_spec (bg_rc b) 0) as [Hle|Hgt].
  - intros Heq. inversion Heq; subst; simpl.
    destruct Hbegin as [(H1 & He)|[(H0 & He)|(Hm & Hin)]]; try lia.
    + repeat split; auto; intros; lia.
    + repeat split; auto; try (intros; lia).
      intros _. simpl in Hin. simpl. tauto.
  - destruct Hbegin as [(H1 & He)|[(H0 & He)|(Hm & Hin)]]; try lia.
    destruct malloc as [|errno]; intros Heq; inversion Heq; subst; simpl.
    + repeat split; auto; intros; lia.
    + repeat split; auto; try (intros; congruence). intros _. tauto.
Qed.

Lemma xzreader_begin_err (lzma : E) (p : fda_ptr) (st : store D)
    (err : errinfo) (b : begin_result) :
  xzreader_begin lzma p st err = Returns b ->
  (bg_rc b = 1 /\ bg_err b = err) \/
  (bg_rc b = 0 /\ bg_err b = err /\ bg_lzma b = lzma) \/
  (bg_rc b = -1 /\
   In (fst (bg_err b)) ["read"; "xzreader_begin"; "lzma_code"]%string).
Proof.
  unfold xzreader_begin.
  repeat match goal with
         | |- context [if ?c then _ else _] => destruct c
         end; intros Heq; inversion Heq; subst; simpl; auto 10.
Qed.

Lemma xzreader_reopen_rc (z : xzreader E) (nf : option fda_ptr)
    (st : store D) (err : errinfo) (ro : reopen_result) :
  xzreader_reopen z nf st err = Returns ro ->
  (ro_rc ro = 1 \/ ro_rc ro = 0 \/ ro_rc ro = -1) /\
  (ro_rc ro <> -1 -> ro_err ro = err) /\
  (ro_rc ro = -1 -> In (fst (ro_err ro)) reopen_origins) /\
  z_eof (ro_z ro) = false.
Proof.
  assert (Hprobe : forall z',
    match xzreader_begin (z_lzma z') (z_fda z') st err with
    | Returns b =>
        Returns (mkreopen (bg_rc b) (mkz (z_fda z') (bg_lzma b) false)
                          (bg_store b) (bg_err b))
    | AssertFails => AssertFails
    | OutOfFuel => OutOfFuel
    end = Returns ro ->
    (ro_rc ro = 1 \/ ro_rc ro = 0 \/ ro_rc ro = -1) /\
    (ro_rc ro <> -1 -> ro_err ro = err) /\
    (ro_rc ro = -1 -> In (fst (ro_err ro)) reopen_origins) /\
    z_eof (ro_z ro) = false).
  { intros z'.
    destruct (xzreader_begin (z_lzma z') (z_fda z') st err) as [b| |] eqn:Hb;
      try discriminate.
    intros Heq. inversion Heq; subst; simpl.
    destruct (xzreader_begin_err _ _ _ _ Hb)
      as [(H1 & He)|[(H0 & He & _)|(Hm & Hin)]].
    - split; [auto|]. split; [auto|]. split; [intros; lia | reflexivity].
    - split; [auto|]. split; [auto|]. split; [intros; lia | reflexivity].
    - split; [auto|]. split; [intros; lia|].
      split; [|reflexivity]. intros _. simpl in Hin. simpl. tauto. }
  unfold xzreader_reopen.
  set (z1 := match nf with
             | Some p => mkz p (z_lzma z) (z_eof z)
             | None => z
             end).
  destruct (z_eof z1) eqn:Hz1; simpl.
  - exact (Hprobe (mkz (z_fda z1) (z_lzma z1) false)).
  - destruct (lzma_stream_decoder MEMLIMIT 0) as [zret lzma].
    destruct (negb (lzma_ret_eqb zret LZMA_OK)).
    + intros Heq. inversion Heq; subst; simpl.
      split; [auto|]. split; [intros; congruence|].
      split; [intros _; simpl; auto|].
      reflexivity.
    + exact (Hprobe (mkz (z_fda z1) lzma false)).
Qed.

(** What the loop of [xzreader_read] returns, and what it leaves alone. *)
Lemma read_loop_frame (err : errinfo) :
  forall fuel s r,
    z_eof (ls_z s) = false ->
    xzreader_read_loop fuel s err = Returns r ->
    ((rd_ret r = -1 /\ In (fst (rd_err r)) read_origins /\
      z_eof (rd_z r) = false) \/
     (0 <= rd_ret r /\ rd_err r = err)) /\
    z_fda (rd_z r) = z_fda (ls_z s) /\
    (forall q, q <> z_fda (ls_z s) -> rd_store r q = ls_store s q) /\
    (exists w, rd_buf r = ls_out s ++ w).
Proof.
  induction fuel as [|fuel IH]; intros s r Hz Hloop; [discriminate|].
  simpl in Hloop.
  destruct (xzreader_read_iter s err) as [r'|s1] eqn:Hit.
  - inversion Hloop; subst r'. clear Hloop.
    destruct (read_iter_break _ _ Hit)
      as [(_ & ->)|[(_ & ->)|[(_ & Hne & _ & ->)|(_ & _ & _ & ->)]]]; simpl.
    + split; [left; simpl; auto|]. split; [reflexivity|].
      split; [intros q Hq; now apply upd_other|].
      exists []. now rewrite app_nil_r.
    + split; [left; simpl; auto|]. split; [reflexivity|].
      split; [intros q Hq; now apply upd_other|].
      exists []. now rewrite app_nil_r.
    + split.
      { left. simpl. split; [reflexivity|]. split; [auto|].
        destruct (lzma_ret_eqb_spec (co_ret (iter_code s)) LZMA_STREAM_END);
          [contradiction | exact Hz]. }
      split; [reflexivity|].
      split; [intros q Hq; now apply upd_other|]. eauto.
    + split; [right; split; [lia | reflexivity]|]. split; [reflexivity|].
      split; [intros q Hq; now apply upd_other|]. eauto.
  - destruct (read_iter_continue _ _ Hit) as (_ & _ & _ & _ & Hs1).
    assert (Hz1 : z_eof (ls_z s1) = false) by (subst s1; reflexivity).
    destruct (IH s1 r Hz1 Hloop) as (Hres & Hp & Hoth & (w & Hw)).
    subst s1. simpl in *.
    split; [exact Hres|]. split; [exact Hp|]. split.
    + intros q Hq. rewrite (Hoth q Hq). now apply upd_other.
    + exists (co_written (iter_code s) ++ w). now rewrite Hw, app_assoc.
Qed.

Lemma xzreader_read_frame (fuel : nat) (z : xzreader E) (st : store D)
    (size : nat) (err : errinfo) (r : read_result) :
  xzreader_read fuel z st size err = Returns r ->
  ((rd_ret r = -1 /\ In (fst (rd_err r)) read_origins /\
    z_eof (rd_z r) = false) \/
   (0 <= rd_ret r /\ rd_err r = err)) /\
  z_fda (rd_z r) = z_fda z /\
  (forall q, q <> z_fda z -> rd_store r q = st q) /\
  (z_eof z = true -> z_eof (rd_z r) = true).
Proof.
  unfold xzreader_read. destruct (z_eof z) eqn:Hz.
  - intros Heq. inversion Heq; subst; simpl.
    repeat split; auto. right. split; [lia | reflexivity].
  - destruct (Nat.eqb size 0); [discriminate|]. intros Hloop.
    destruct (@read_loop_frame err fuel (mkloop z st [] size 0) r Hz Hloop)
      as (Hres & Hp & Hoth & _).
    simpl in *. repeat split; auto. discriminate.
Qed.

(** X1.  The error reporting of the three calls.  [xzreader_open],
    [xzreader_reopen] and [xzreader_read] leave [err] as it was unless they
    return -1; when they return -1 they have set [err], and its first
    string is one of a few fixed names: the function that failed
    ([lzma_stream_decoder], [read], [lzma_code], [malloc]) or, for the
    reader's own checks, [xzreader_begin] ("input too small") and
    [xzreader_read] ("unexpected EOF"). *)
Theorem error_reporting :
  (forall zp p st err o,
     xzreader_open zp p st err = Returns o ->
     (op_rc o <> -1 -> op_err o = err) /\
     (op_rc o = -1 -> In (fst (op_err o)) open_origins)) /\
  (forall z nf st err ro,
     xzreader_reopen z nf st err = Returns ro ->
     (ro_rc ro <> -1 -> ro_err ro = err) /\
     (ro_rc ro = -1 -> In (fst (ro_err ro)) reopen_origins)) /\
  (forall fuel z st size err r,
     xzreader_read fuel z st size err = Returns r ->
     (rd_ret r <> -1 -> rd_err r = err) /\
     (rd_ret r = -1 -> In (fst (rd_err r)) read_origins)).
Proof.
  split; [|split].
  - intros zp p st err o Ho.
    destruct (xzreader_open_rc _ _ _ _ Ho) as (_ & H1 & H2 & _). auto.
  - intros z nf st err ro Hro.
    destruct (xzreader_reopen_rc _ _ _ _ Hro) as (_ & H1 & H2 & _). auto.
  - intros fuel z st size err r Hr.
    destruct (xzreader_read_frame _ _ _ _ _ Hr)
      as ([(Hm & Hin & _)|(Hpos & He)] & _).
    + split; [intros; contradiction | auto].
    + split; [auto | intros; lia].
Qed.

(** X2.  The calls touch one source only.  [xzreader_open] on the source
    [p] and [xzreader_read] on a reader leave every other source as it
    was, and a read leaves the reader on the source it was on. *)
Theorem calls_touch_one_source :
  (forall zp p st err o,
     xzreader_open zp p st err = Returns o ->
     forall q, q <> p -> op_store o q = st q) /\
  (forall fuel z st size err r,
     xzreader_read fuel z st size err = Returns r ->
     z_fda (rd_z r) = z_fda z /\
     forall q, q <> z_fda z -> rd_store r q = st q).
Proof.
  split.
  - intros zp p st err o Ho.
    exact (proj2 (proj2 (proj2 (xzreader_open_rc _ _ _ _ Ho)))).
  - intros fuel z st size err r Hr.
    destruct (xzreader_read_frame _ _ _ _ _ Hr) as (_ & Hp & Hoth & _). auto.
Qed.

(** The loop keeps [total] equal to the number of bytes stored, for a
    decoder whose [avail_out] accounts for what it stored. *)
Lemma read_loop_count (err : errinfo) :
  (forall e inp n,
     (length (co_written (lzma_code e inp n)) +
      co_avail_out (lzma_code e inp n) = n)%nat) ->
  forall fuel s r,
    xzreader_read_loop fuel s err = Returns r ->
    ls_total s = length (ls_out s) ->
    0 <= rd_ret r -> rd_ret r = Z.of_nat (length (rd_buf r)).
Proof.
  intros Hexact. induction fuel as [|fuel IH]; intros s r Hloop Htot Hpos;
    [discriminate|].
  simpl in Hloop.
  pose proof (Hexact (z_lzma (ls_z s)) (window (io_fda (iter_peek s)))
                     (ls_size s)) as Hex.
  fold (iter_code s) in Hex.
  destruct (xzreader_read_iter s err) as [r'|s1] eqn:Hit.
  - inversion Hloop; subst r'. clear Hloop.
    destruct (read_iter_break _ _ Hit)
      as [(_ & ->)|[(_ & ->)|[(_ & _ & _ & ->)|(_ & _ & _ & ->)]]];
      simpl in *; try lia.
    rewrite length_app. f_equal. lia.
  - destruct (read_iter_continue _ _ Hit) as (_ & _ & _ & _ & Hs1).
    apply (IH s1 r Hloop); [|assumption].
    subst s1. simpl. rewrite length_app. lia.
Qed.

(** X3.  The count is the number of bytes stored.  For a decoder whose
    [avail_out] accounts for the bytes it stored, a call of
    [xzreader_read] that returns a count has stored exactly that many bytes
    in the buffer, from its start on. *)
Theorem read_count_is_bytes_stored (fuel : nat) (z : xzreader E)
    (st : store D) (size : nat) (err : errinfo) (r : read_result) :
  (forall e inp n,
     (length (co_written (lzma_code e inp n)) +
      co_avail_out (lzma_code e inp n) = n)%nat) ->
  xzreader_read fuel z st size err = Returns r ->
  0 <= rd_ret r ->
  rd_ret r = Z.of_nat (length (rd_buf r)) /\
  (length (rd_buf r) <= size)%nat.
Proof.
  intros Hexact Hread Hpos.
  assert (Hroom : forall e inp n, (co_avail_out (lzma_code e inp n) <= n)%nat).
  { intros e inp n. specialize (Hexact e inp n). lia. }
  unfold xzreader_read in Hread. destruct (z_eof z) eqn:Hz.
  - inversion Hread; subst; simpl. split; [reflexivity | lia].
  - destruct (Nat.eqb size 0); [discriminate|].
    pose proof (@read_loop_count err Hexact fuel _ r Hread eq_refl Hpos)
      as Hcount.
    split; [exact Hcount|].
    destruct (read_loop_post err Hroom fuel (mkloop z st [] size 0) Hz Hread)
      as [(Hm & _)|(t & Hret & _ & Hbnd & _)]; [lia|].
    simpl in Hbnd. lia.
Qed.

Lemma read_calls_at_eof (z : xzreader E) (st : store D) (err : errinfo) :
  z_eof z = true ->
  forall fuel sizes,
    read_calls fuel z st err sizes =
    Returns (map (fun _ => 0) sizes, z, st, err).
Proof.
  intros Hz fuel sizes. induction sizes as [|size sizes IH]; [reflexivity|].
  cbn [read_calls map]. unfold xzreader_read. rewrite Hz.
  cbn [rd_z rd_store rd_err rd_ret]. now rewrite IH.
Qed.

Lemma read_short_eof (fuel : nat) (z : xzreader E) (st : store D)
    (size : nat) (err : errinfo) (r : read_result) :
  (forall e inp n, (co_avail_out (lzma_code e inp n) <= n)%nat) ->
  (0 < size)%nat ->
  xzreader_read fuel z st size err = Returns r ->
  0 <= rd_ret r < Z.of_nat size ->
  z_eof (rd_z r) = true.
Proof.
  intros Hroom Hsize Hread Hshort. unfold xzreader_read in Hread.
  destruct (z_eof z) eqn:Hz.
  - inversion Hread; subst; exact Hz.
  - destruct (Nat.eqb_spec size 0) as [->|_]; [lia|].
    destruct (read_loop_post err Hroom fuel (mkloop z st [] size 0) Hz Hread)
      as [(Hm & _)|(t & Hret & _ & _ & Heof)]; [lia|].
    simpl in Heof. apply Heof. lia.
Qed.

(** X4.  The contract of [xzreader.h]: "If the number of bytes read is less
    than the number of bytes requested, this indicates EOF (subsequent
    reads will return 0)."  For a decoder that never reports more room than
    it was given: after a call of [xzreader_read] with a buffer of
    [size > 0] bytes that returns a count below [size] (0 included), the
    [eof] flag is set and every further call, with any buffer, returns 0
    and changes nothing. *)
Theorem short_read_then_zero (fuel : nat) (z : xzreader E) (st : store D)
    (size : nat) (err : errinfo) (r : read_result) :
  (forall e inp n, (co_avail_out (lzma_code e inp n) <= n)%nat) ->
  (0 < size)%nat ->
  xzreader_read fuel z st size err = Returns r ->
  0 <= rd_ret r < Z.of_nat size ->
  z_eof (rd_z r) = true /\
  forall fuel' sizes,
    read_calls fuel' (rd_z r) (rd_store r) (rd_err r) sizes =
    Returns (map (fun _ => 0) sizes, rd_z r, rd_store r, rd_err r).
Proof.
  intros Hroom Hsize Hread Hshort.
  pose proof (read_short_eof _ _ _ _ Hroom Hsize Hread Hshort) as Heof.
  split; [exact Heof|]. now apply read_calls_at_eof.
Qed.

(** With [eof] clear, [xzreader_reopen] does not look at the decoder the
    reader holds. *)
Lemma reopen_ignores_decoder (z : xzreader E) (e' : E)
    (nf : option fda_ptr) (st : store D) (err : errinfo) :
  z_eof z = false ->
  xzreader_reopen z nf st err =
  xzreader_reopen (mkz (z_fda z) e' false) nf st err.
Proof.
  intros Hz. unfold xzreader_reopen.
  destruct nf as [p|]; simpl; rewrite Hz; simpl;
    destruct (lzma_stream_decoder MEMLIMIT 0) as [zret lzma]; reflexivity.
Qed.

(** X5.  When reopen starts afresh.  [xzreader_reopen] keeps the decoder
    only after a read has completed the frame.  Called right after
    [xzreader_open], right after another [xzreader_reopen] (whatever that
    one returned), after a read that failed, or after any read that left
    [eof] clear, it constructs a decoder anew: what it returns does not
    depend on the decoder the reader holds. *)
Theorem reopen_starts_afresh :
  (forall zp p st err o z',
     xzreader_open zp p st err = Returns o -> op_rc o = 1 ->
     op_zp o = Some z' ->
     forall e' nf st' err',
       xzreader_reopen z' nf st' err' =
       xzreader_reopen (mkz (z_fda z') e' false) nf st' err') /\
  (forall z nf0 st err ro,
     xzreader_reopen z nf0 st err = Returns ro ->
     forall e' nf st' err',
       xzreader_reopen (ro_z ro) nf st' err' =
       xzreader_reopen (mkz (z_fda (ro_z ro)) e' false) nf st' err') /\
  (forall fuel z st size err r,
     xzreader_read fuel z st size err = Returns r ->
     rd_ret r = -1 \/ z_eof (rd_z r) = false ->
     forall e' nf st' err',
       xzreader_reopen (rd_z r) nf st' err' =
       xzreader_reopen (mkz (z_fda (rd_z r)) e' false) nf st' err').
Proof.
  split; [|split].
  - intros zp p st err o z' Ho Hrc Hzp e' nf st' err'.
    apply reopen_ignores_decoder.
    revert Ho. unfold xzreader_open.
    destruct (lzma_stream_decoder MEMLIMIT 0) as [zret lzma].
    destruct (negb (lzma_ret_eqb zret LZMA_OK)).
    { intros Heq. inversion Heq; subst. simpl in Hrc. lia. }
    destruct (xzreader_begin lzma p st err) as [b| |]; try discriminate.
    destruct (Z.leb_spec (bg_rc b) 0).
    { intros Heq. inversion Heq; subst. simpl in Hrc. lia. }
    destruct malloc; intros Heq; inversion Heq; subst; simpl in *.
    + inversion Hzp. reflexivity.
    + lia.
  - intros z nf0 st err ro Hro e' nf st' err'.
    apply reopen_ignores_decoder.
    exact (proj2 (proj2 (proj2 (xzreader_reopen_rc _ _ _ _ Hro)))).
  - intros fuel z st size err r Hr Hcase e' nf st' err'.
    apply reopen_ignores_decoder.
    destruct Hcase as [Hm|Hz]; [|exact Hz].
    destruct (xzreader_read_frame _ _ _ _ _ Hr)
      as ([(_ & _ & Hz)|(Hpos & _)] & _); [exact Hz | lia].
Qed.

(** X6.  A failed [read(2)].  When [reada] fails on the header,
    [xzreader_open] (the decoder constructed) returns -1 with the error of
    [read], the handle as before and the decoder never run; when [peeka]
    fails in an iteration of [xzreader_read], the call returns -1 with the
    error of [read], the reader as the earlier iterations left it.  The
    message is [sys_errlist[errno]], or "Unknown error" for an [errno]
    outside the table. *)
Theorem read_error_reporting :
  (forall zp p st err e0,
     lzma_stream_decoder MEMLIMIT 0 = (LZMA_OK, e0) ->
     let rd := reada (st p) LZMA_STREAM_HEADER_SIZE in
     io_ret rd < 0 ->
     xzreader_open zp p st err =
     Returns (mkopen (-1) zp (upd st p (io_fda rd))
                     ("read"%string, xstrerror (io_errno rd)))) /\
  (forall fuel z st size err k s',
     z_eof z = false -> (0 < size)%nat ->
     iter_steps err k (mkloop z st [] size 0) s' ->
     io_ret (iter_peek s') < 0 ->
     (k < fuel)%nat ->
     xzreader_read fuel z st size err =
     Returns (mkread (-1) (ls_out s') (ls_z s')
                     (upd (ls_store s') (z_fda (ls_z s'))
                          (io_fda (iter_peek s')))
                     ("read"%string, xstrerror (io_errno (iter_peek s'))))) /\
  (forall errno,
     xstrerror errno = sys_errlist errno /\ 0 < errno < sys_nerr \/
     xstrerror errno = "Unknown error"%string /\
     (errno <= 0 \/ sys_nerr <= errno)).
Proof.
  split; [|split].
  - intros zp p st err e0 Hdec rd Hneg.
    destruct (xzreader_begin_cases e0 p st err) as (Hio & _).
    unfold xzreader_open. rewrite Hdec. simpl.
    rewrite (Hio Hneg). reflexivity.
  - intros fuel z st size err k s' Hz Hsize Hsteps Hpk Hfuel.
    unfold xzreader_read. rewrite Hz.
    destruct (Nat.eqb_spec size 0) as [->|_]; [lia|].
    apply (iter_steps_break Hsteps); [|assumption].
    unfold xzreader_read_iter.
    destruct (Z.ltb_spec (io_ret (iter_peek s')) 0); [reflexivity | lia].
  - intros errno. unfold xstrerror.
    destruct (Z.ltb_spec 0 errno); destruct (Z.ltb_spec errno sys_nerr);
      simpl; auto; right; split; auto; lia.
Qed.

(** X7.  A decoder error inside a frame.  When [lzma_code] returns anything
    but [LZMA_OK] and [LZMA_STREAM_END] in an iteration of
    [xzreader_read], the call returns -1 with the error of [lzma_code] and
    its message for that code; what the decoder stored before it failed is
    in the buffer, the window is as [peeka] left it, and [eof] stays
    clear. *)
Theorem decoder_error_reporting (fuel : nat) (z : xzreader E) (st : store D)
    (size : nat) (err : errinfo) (k : nat) (s' : loop_state) :
  z_eof z = false -> (0 < size)%nat ->
  iter_steps err k (mkloop z st [] size 0) s' ->
  0 < io_ret (iter_peek s') ->
  co_ret (iter_code s') <> LZMA_OK ->
  co_ret (iter_code s') <> LZMA_STREAM_END ->
  (k < fuel)%nat ->
  xzreader_read fuel z st size err =
  Returns (mkread (-1) (ls_out s' ++ co_written (iter_code s'))
                  (mkz (z_fda z) (co_strm (iter_code s')) false)
                  (upd (ls_store s') (z_fda z) (io_fda (iter_peek s')))
                  ("lzma_code"%string, lzma_strerror (co_ret (iter_code s')))).
Proof.
  intros Hz Hsize Hsteps Hpk Hok Hend Hfuel.
  unfold xzreader_read. rewrite Hz.
  destruct (Nat.eqb_spec size 0) as [->|_]; [lia|].
  apply (iter_steps_break Hsteps); [|assumption].
  destruct (iter_steps_frame Hsteps) as (Hp & _). simpl in Hp.
  assert (Hz' : z_eof (ls_z s') = false).
  { clear - Hsteps Hz. remember (mkloop z st [] size 0) as s0 eqn:Hs0.
    assert (Hz0 : z_eof (ls_z s0) = false) by (subst s0; exact Hz).
    clear Hs0 Hz. induction Hsteps as [s|k s s1 s2 Hit _ IH]; [exact Hz0|].
    apply IH. destruct (read_iter_continue _ _ Hit) as (_ & _ & _ & _ & ->).
    reflexivity. }
  unfold xzreader_read_iter.
  destruct (Z.ltb_spec (io_ret (iter_peek s')) 0); [lia|].
  destruct (Z.eqb_spec (io_ret (iter_peek s')) 0); [lia|].
  destruct (lzma_ret_eqb_spec (co_ret (iter_code s')) LZMA_STREAM_END);
    [contradiction|].
  destruct (lzma_ret_eqb_spec (co_ret (iter_code s')) LZMA_OK);
    [contradiction|].
  simpl. rewrite Hp, Hz'. reflexivity.
Qed.

(** X8.  How the frame loop of [main.c] ends.  For a decoder that never
    reports more room than it was given and a buffer of [size > 0] bytes,
    the loop [while ((ret = xzreader_read(...)) > 0)] ends either with
    [ret = -1], a read having failed and set [err], or with [ret = 0], and
    then the frame is complete ([eof] is set: the reopen that follows keeps
    the decoder) and [err] is untouched.  What it has written to [stdout]
    is only added to, and the reader stays on its source. *)
Theorem read_frame_ends (size : nat) :
  (forall e inp n, (co_avail_out (lzma_code e inp n) <= n)%nat) ->
  (0 < size)%nat ->
  forall fuel z st stdout err r,
    read_frame fuel z st size stdout err = Returns r ->
    ((fr_ret r = -1 /\ In (fst (fr_err r)) read_origins /\
      z_eof (fr_z r) = false) \/
     (fr_ret r = 0 /\ z_eof (fr_z r) = true /\ fr_err r = err)) /\
    z_fda (fr_z r) = z_fda z /\
    (exists w, fr_out r = stdout ++ w) /\
    (forall q, q <> z_fda z -> fr_store r q = st q).
Proof.
  intros Hroom Hsize.
  induction fuel as [|fuel IH]; intros z st stdout err r Hframe;
    [discriminate|].
  cbn [read_frame] in Hframe.
  destruct (xzreader_read (S fuel) z st size err) as [rr| |] eqn:Hread;
    try discriminate.
  destruct (xzreader_read_frame _ _ _ _ _ Hread)
    as (Hres & Hp & Hoth & _).
  destruct (Z.ltb_spec 0 (rd_ret rr)) as [Hpos|Hle].
  - destruct Hres as [(Hm & _)|(_ & Herr)]; [lia|].
    destruct (IH _ _ _ _ _ Hframe) as (Hfin & Hfp & (w & Hw) & Hfoth).
    rewrite Herr in Hfin. rewrite Hp in Hfp, Hfoth.
    split; [exact Hfin|]. split; [exact Hfp|]. split.
    + eexists. rewrite Hw, <- app_assoc. reflexivity.
    + intros q Hq. rewrite (Hfoth q Hq). now apply Hoth.
  - inversion Hframe; subst r; simpl. clear Hframe.
    split.
    + destruct Hres as [(Hm & Hin & Hz)|(Hpos & Herr)]; [left; auto|].
      right. split; [lia|]. split; [|exact Herr].
      apply (read_short_eof _ _ _ _ Hroom Hsize Hread). lia.
    + split; [exact Hp|]. split; [|exact Hoth].
      exists []. now rewrite app_nil_r.
Qed.

End Contracts.

(** * Short and truncated input, for a source and a decoder that keep
      their promises *)

Section Truncation.

Context {D E : Type} {RD : Reada D} {LZ : Lzma E} {LC : Libc}.

Variable holds : fda D -> list byte -> Prop.
Variable is_frame : list byte -> list byte -> Prop.
Variable Ready : E -> Prop.
Variable Decoding : E -> list byte -> list byte -> nat -> Prop.

Hypothesis SL : SourceLaws holds.
Hypothesis EL : EngineLaws is_frame Ready Decoding.

(** The header probe on a source with fewer bytes than a header: it
    consumes them all, returns 0 if there was none and -1 otherwise, and
    does not run the decoder. *)
Lemma begin_short (e : E) (p : fda_ptr) (st : store D) (err : errinfo)
    (s : list byte) :
  holds (st p) s -> (length s < LZMA_STREAM_HEADER_SIZE)%nat ->
  let st1 := upd st p (io_fda (reada (st p) LZMA_STREAM_HEADER_SIZE)) in
  holds (st1 p) [] /\ (forall q, q <> p -> st1 q = st q) /\
  (s = [] -> xzreader_begin e p st err = Returns (mkbegin 0 e st1 err)) /\
  (s <> [] ->
   xzreader_begin e p st err =
   Returns (mkbegin (-1) e st1 (ERRSTR "xzreader_begin" "input too small"))).
Proof.
  intros Hh Hlen st1.
  destruct (src_reada SL (n := LZMA_STREAM_HEADER_SIZE) Hh)
    as (Hret & _ & Hh'); [unfold LZMA_STREAM_HEADER_SIZE; lia|].
  rewrite firstn_all2 in Hret by lia.
  rewrite skipn_all2 in Hh' by lia.
  destruct (xzreader_begin_cases e p st err) as (_ & H0 & Hsmall & _).
  split; [subst st1; now rewrite upd_same|].
  split; [intros q Hq; subst st1; now apply upd_other|].
  split.
  - intros ->. apply H0. rewrite Hret. reflexivity.
  - intros Hne. apply Hsmall. rewrite Hret.
    unfold LZMA_STREAM_HEADER_SIZE in Hlen.
    destruct s; [contradiction|]. simpl length in *. lia.
Qed.

(** X9.  Empty input and short input.  On a source that holds fewer bytes
    than a header, [xzreader_open] (the decoder constructed) consumes what
    there is and constructs no reader: it returns 0 with [err] untouched
    when the source holds nothing, and -1 with "input too small" when it
    holds some bytes.  [xzreader_reopen] at the end of the source returns 0
    with [eof] cleared and the decoder it probed with untouched. *)
Theorem open_on_short_input (zp : option (xzreader E)) (p : fda_ptr)
    (st : store D) (err : errinfo) (e0 : E) (s : list byte) :
  lzma_stream_decoder MEMLIMIT 0 = (LZMA_OK, e0) ->
  holds (st p) s -> (length s < LZMA_STREAM_HEADER_SIZE)%nat ->
  let st1 := upd st p (io_fda (reada (st p) LZMA_STREAM_HEADER_SIZE)) in
  holds (st1 p) [] /\ (forall q, q <> p -> st1 q = st q) /\
  (s = [] -> xzreader_open zp p st err = Returns (mkopen 0 zp st1 err)) /\
  (s <> [] ->
   xzreader_open zp p st err =
   Returns (mkopen (-1) zp st1
                   ("xzreader_begin", "input too small")%string)) /\
  (s = [] -> forall z,
     z_fda z = p ->
     xzreader_reopen z None st err =
     Returns (mkreopen 0 (mkz p (if z_eof z then z_lzma z else e0) false)
                       st1 err)).
Proof.
  intros Hdec Hh Hlen st1.
  destruct (begin_short e0 p st err Hh Hlen) as (Hh1 & Hoth & H0 & Hs).
  fold st1 in Hh1, Hoth, H0, Hs.
  split; [exact Hh1|]. split; [exact Hoth|].
  split; [|split].
  - intros Hnil. unfold xzreader_open. rewrite Hdec. simpl.
    rewrite (H0 Hnil). reflexivity.
  - intros Hne. unfold xzreader_open. rewrite Hdec. simpl.
    rewrite (Hs Hne). reflexivity.
  - intros Hnil z Hp. unfold xzreader_reopen. simpl.
    destruct (z_eof z) eqn:Hz; simpl.
    + destruct (begin_short (z_lzma z) p st err Hh Hlen)
        as (_ & _ & H0' & _).
      fold st1 in H0'. rewrite Hp, (H0' Hnil). reflexivity.
    + rewrite Hdec. simpl. rewrite Hp, (H0 Hnil). reflexivity.
Qed.

(** The header probe on a frame cut short behind its header. *)
Lemma begin_truncated (e : E) (p : fda_ptr) (st : store D) (err : errinfo)
    (fr d s missing : list byte) :
  Ready e -> is_frame fr d -> fr = s ++ missing ->
  (LZMA_STREAM_HEADER_SIZE <= length s)%nat ->
  holds (st p) s ->
  exists e' st' m,
    xzreader_begin e p st err = Returns (mkbegin 1 e' st' err) /\
    Decoding e' (skipn LZMA_STREAM_HEADER_SIZE s ++ missing) d m /\
    holds (st' p) (skipn LZMA_STREAM_HEADER_SIZE s) /\
    (forall q, q <> p -> st' q = st q).
Proof.
  intros Hr Hf Hfr Hlen Hh.
  destruct (eng_header EL Hr Hf) as (Hok & Hin & _ & m & Hdec).
  destruct (src_reada SL (n := LZMA_STREAM_HEADER_SIZE) Hh)
    as (Hret & Hbytes & Hh'); [unfold LZMA_STREAM_HEADER_SIZE; lia|].
  rewrite length_firstn, Nat.min_l in Hret by lia.
  assert (Hhdr : firstn LZMA_STREAM_HEADER_SIZE fr =
                 firstn LZMA_STREAM_HEADER_SIZE s).
  { rewrite Hfr, firstn_app.
    replace (LZMA_STREAM_HEADER_SIZE - length s)%nat with 0%nat by lia.
    now rewrite firstn_O, app_nil_r. }
  assert (Hbody : skipn LZMA_STREAM_HEADER_SIZE fr =
                  skipn LZMA_STREAM_HEADER_SIZE s ++ missing).
  { rewrite Hfr, skipn_app.
    replace (LZMA_STREAM_HEADER_SIZE - length s)%nat with 0%nat by lia.
    now rewrite skipn_O. }
  rewrite Hhdr in Hok, Hin, Hdec. rewrite Hbody in Hdec.
  destruct (xzreader_begin_cases e p st err) as (_ & _ & _ & _ & Hacc & _).
  rewrite Hbytes in Hacc.
  eexists _, _, m. split; [|split; [exact Hdec|split]].
  - apply Hacc; [rewrite Hret; unfold LZMA_STREAM_HEADER_SIZE; lia
                | exact Hok | exact Hin].
  - now rewrite upd_same.
  - intros q Hq. now apply upd_other.
Qed.

(** One decode step inside a frame of which the source holds only [t], a
    part that stops before the end of the frame: the decoder cannot
    complete the frame. *)
Lemma truncated_step (s : loop_state) (t missing rout : list byte)
    (m : nat) :
  Decoding (z_lzma (ls_z s)) (t ++ missing) rout m ->
  missing <> [] -> t <> [] ->
  holds (ls_store s (z_fda (ls_z s))) t ->
  (0 < ls_size s)%nat ->
  let c := iter_code s in
  0 < io_ret (iter_peek s) /\
  co_ret c = LZMA_OK /\
  exists w rout' t' m',
    rout = w ++ rout' /\ co_written c = w /\
    (length w <= ls_size s)%nat /\
    co_avail_out c = (ls_size s - length w)%nat /\
    holds (shrink_window (io_fda (iter_peek s)) (co_avail_in c)) t' /\
    (m' < m)%nat /\ Decoding (co_strm c) (t' ++ missing) rout' m'.
Proof.
  intros Hdec Hmiss Hne Hh Hsize c.
  destruct (src_peeka SL (n := 4) Hh) as (Hh1 & _ & Hpk); [lia|].
  destruct (Hpk Hne) as (Hret & Hwin). clear Hpk. fold (iter_peek s) in *.
  split; [exact Hret|].
  destruct (src_window SL Hh1) as (t2 & Ht).
  assert (Heq : window (io_fda (iter_peek s)) ++ (t2 ++ missing) =
                (t ++ missing) ++ []).
  { rewrite app_nil_r, app_assoc, <- Ht. reflexivity. }
  destruct (eng_step EL Hdec Hwin Heq Hsize)
    as (ci & k & Hci & Hcr & Hin & Hkn & Hkr & Hout & Hw & Hcases).
  fold (iter_code s) in Hin, Hout, Hw, Hcases. fold c in Hin, Hout, Hw, Hcases.
  assert (Hlt : (ci <= length t)%nat).
  { rewrite Ht, length_app. lia. }
  assert (Hmlen : (0 < length missing)%nat)
    by (destruct missing; [contradiction | simpl; lia]).
  destruct Hcases as [(Hend & Hc & Hk)|(Hok & m' & Hm' & Hdec')].
  { rewrite length_app in Hc. lia. }
  split; [exact Hok|].
  exists (firstn k rout), (skipn k rout), (skipn ci t), m'.
  assert (Hlenw : length (firstn k rout) = k)
    by (rewrite length_firstn; lia).
  split; [now rewrite firstn_skipn|]. split; [exact Hw|].
  split; [lia|]. split; [now rewrite Hlenw|].
  split.
  - pose proof (src_shrink SL (a := co_avail_in c) Hh1) as Hsh.
    rewrite Hin in Hsh |- *.
    replace (length (window (io_fda (iter_peek s))) -
             (length (window (io_fda (iter_peek s))) - ci))%nat
      with ci in Hsh by lia.
    apply Hsh. lia.
  - split; [exact Hm'|].
    rewrite skipn_app in Hdec'.
    replace (ci - length t)%nat with 0%nat in Hdec' by lia.
    now rewrite skipn_O in Hdec'.
Qed.

(** The loop of [xzreader_read] inside a truncated frame: it stores bytes
    of the content and returns -1 with "unexpected EOF", the source
    exhausted, or it fills the buffer and returns its size. *)
Lemma read_loop_truncated (err : errinfo) (missing : list byte) :
  missing <> [] ->
  forall fuel s t rout m,
    z_eof (ls_z s) = false ->
    Decoding (z_lzma (ls_z s)) (t ++ missing) rout m ->
    holds (ls_store s (z_fda (ls_z s))) t ->
    (0 < ls_size s)%nat -> (m < fuel)%nat ->
    exists r w rout',
      xzreader_read_loop fuel s err = Returns r /\
      rd_buf r = ls_out s ++ w /\ rout = w ++ rout' /\
      z_fda (rd_z r) = z_fda (ls_z s) /\ z_eof (rd_z r) = false /\
      ((rd_ret r = -1 /\
        rd_err r = ERRSTR "xzreader_read" "unexpected EOF" /\
        holds (rd_store r (z_fda (ls_z s))) []) \/
       (rd_ret r = Z.of_nat (ls_total s + length w) /\
        length w = ls_size s /\ rd_err r = err /\
        exists t' m',
          (m' < m)%nat /\
          Decoding (z_lzma (rd_z r)) (t' ++ missing) rout' m' /\
          holds (rd_store r (z_fda (ls_z s))) t')).
Proof.
  intros Hmiss.
  induction fuel as [|fuel IH]; intros s t rout m Hz Hdec Hh Hsize Hfuel;
    [lia|].
  destruct t as [|b t].
  - (* the source is exhausted *)
    destruct (src_peeka SL (n := 4) Hh) as (Hh1 & Hzero & _); [lia|].
    specialize (Hzero eq_refl). fold (iter_peek s) in Hh1, Hzero.
    exists (mkread (-1) (ls_out s) (ls_z s)
                   (upd (ls_store s) (z_fda (ls_z s)) (io_fda (iter_peek s)))
                   (ERRSTR "xzreader_read" "unexpected EOF")), [], rout.
    simpl. unfold xzreader_read_iter. rewrite Hzero. simpl.
    rewrite app_nil_r, upd_same. repeat split; auto.
  - destruct (@truncated_step s (b :: t) missing rout m Hdec Hmiss
                ltac:(discriminate) Hh Hsize)
      as (Hpk & Hok & w & rout' & t' & m' & Hrout & Hw & Hlw & Hout & Hh'
          & Hm' & Hdec').
    simpl. destruct (xzreader_read_iter s err) as [r|s1] eqn:Hit.
    + destruct (read_iter_break _ _ Hit)
        as [(Hneg & _)|[(Hzero & _)|[(_ & _ & Hno & _)|(_ & _ & Hstop & ->)]]];
        try lia; try contradiction.
      eexists _, w, rout'. split; [reflexivity|]. simpl.
      rewrite Hok in *. simpl in *. rewrite Hz in *.
      destruct Hstop as [Hstop|Hstop]; [|discriminate].
      rewrite Hw, upd_same. repeat split; auto.
      right. split; [f_equal; lia|]. split; [lia|]. split; [reflexivity|].
      exists t', m'. auto.
    + destruct (read_iter_continue _ _ Hit) as (_ & _ & _ & Hroom & Hs1).
      assert (Hz1 : z_eof (ls_z s1) = false) by (subst s1; reflexivity).
      assert (Hp1 : z_fda (ls_z s1) = z_fda (ls_z s))
        by (subst s1; reflexivity).
      assert (Hdec1 : Decoding (z_lzma (ls_z s1)) (t' ++ missing) rout' m')
        by (subst s1; exact Hdec').
      assert (Hh1 : holds (ls_store s1 (z_fda (ls_z s1))) t')
        by (subst s1; simpl; now rewrite upd_same).
      assert (Hsize1 : (0 < ls_size s1)%nat) by (subst s1; simpl; lia).
      destruct (IH s1 t' rout' m' Hz1 Hdec1 Hh1 Hsize1 ltac:(lia))
        as (r & w1 & rout2 & Hloop & Hbuf & Hr2 & Hp & Heof & Hfin).
      assert (Hsz : ls_size s1 = (ls_size s - length w)%nat)
        by (subst s1; simpl; lia).
      assert (Htot : ls_total s1 = (ls_total s + length w)%nat)
        by (subst s1; simpl; lia).
      assert (Hout1 : ls_out s1 = ls_out s ++ w)
        by (subst s1; simpl; now rewrite Hw).
      exists r, (w ++ w1), rout2. rewrite Hp1 in *.
      split; [exact Hloop|].
      split; [now rewrite Hbuf, Hout1, app_assoc|].
      split; [now rewrite Hrout, Hr2, app_assoc|].
      split; [exact Hp|]. split; [exact Heof|].
      destruct Hfin as [Hfail|(Hret & Hfull & Herr & t2 & m2 & Hm2 & Hd2 & Hh2)].
      * left. exact Hfail.
      * right. split; [rewrite Hret, Htot, length_app; f_equal; lia|].
        split; [rewrite length_app; lia|]. split; [exact Herr|].
        exists t2, m2. repeat split; auto. lia.
Qed.

(** The frame loop of [main.c] inside a truncated frame. *)
Lemma read_frame_truncated (err : errinfo) (missing : list byte)
    (size : nat) :
  missing <> [] -> (0 < size)%nat ->
  forall fuel z st t rout m stdout,
    z_eof z = false ->
    Decoding (z_lzma z) (t ++ missing) rout m ->
    holds (st (z_fda z)) t ->
    (m + 1 <= fuel)%nat ->
    exists r w rout',
      read_frame fuel z st size stdout err = Returns r /\
      fr_ret r = -1 /\
      fr_err r = ERRSTR "xzreader_read" "unexpected EOF" /\
      fr_out r = stdout ++ w /\ rout = w ++ rout' /\
      z_eof (fr_z r) = false /\
      holds (fr_store r (z_fda z)) [].
Proof.
  intros Hmiss Hsize.
  induction fuel as [|fuel IH];
    intros z st t rout m stdout Hz Hdec Hh Hfuel; [lia|].
  destruct (@read_loop_truncated err missing Hmiss (S fuel)
              (mkloop z st [] size 0) t rout m Hz Hdec Hh Hsize ltac:(lia))
    as (r & w & rout' & Hloop & Hbuf & Hrout & Hp & Heof & Hfin).
  simpl in Hbuf, Hp, Hfin.
  cbn [read_frame]. unfold xzreader_read. rewrite Hz.
  destruct (Nat.eqb_spec size 0) as [->|_]; [lia|].
  rewrite Hloop.
  destruct Hfin as [(Hret & Herr & Hh')
                   |(Hret & Hfull & Herr & t' & m' & Hm' & Hd' & Hh')].
  - rewrite Hret. simpl.
    exists (mkframe (-1) stdout (rd_z r) (rd_store r) (rd_err r)), [], rout.
    simpl. rewrite app_nil_r. repeat split; auto.
  - destruct (Z.ltb_spec 0 (rd_ret r)) as [Hpos|Hle]; [|lia].
    rewrite <- Hp in Hh'.
    destruct (IH (rd_z r) (rd_store r) t' rout' m'
                 (stdout ++ firstn (Z.to_nat (rd_ret r)) (rd_buf r))
                 Heof Hd' Hh' ltac:(lia))
      as (fr & w1 & rout2 & Hfr & Hfret & Hferr & Hfout & Hr2 & Hfeof & Hfh).
    rewrite Herr.
    exists fr, (w ++ w1), rout2. rewrite Hp in Hfh.
    split; [exact Hfr|]. split; [exact Hfret|]. split; [exact Hferr|].
    split.
    { rewrite Hfout, Hret, Hbuf, Nat2Z.id. simpl.
      rewrite firstn_all. now rewrite app_assoc. }
    split; [now rewrite Hrout, Hr2, app_assoc|].
    split; assumption.
Qed.


End Truncation.

(** * [main.c] *)

Section MainFacts.

Context {D E : Type} {RD : Reada D} {LS : Lseek D} {LZ : Lzma E} {LC : Libc}.

(** The three errors of [xzreader_read]. *)
Lemma read_loop_failure (err : errinfo) :
  forall fuel s r,
    xzreader_read_loop fuel s err = Returns r -> rd_ret r < 0 ->
    rd_err r = ERRSTR "xzreader_read" "unexpected EOF" \/
    (exists e, rd_err r = ERRNO "read" e) \/
    (exists ret, rd_err r = ERRXZ "lzma_code" ret).
Proof.
  induction fuel as [|fuel IH]; intros s r Hloop Hneg; [discriminate|].
  simpl in Hloop.
  destruct (xzreader_read_iter s err) as [r'|s1] eqn:Hit.
  - inversion Hloop; subst r'.
    destruct (read_iter_break _ _ Hit)
      as [(_ & ->)|[(_ & ->)|[(_ & _ & _ & ->)|(_ & _ & _ & ->)]]];
      simpl in *; eauto; lia.
  - eauto.
Qed.

Lemma read_frame_failure (size : nat) :
  forall fuel z st stdout err r,
    read_frame fuel z st size stdout err = Returns r ->
    fr_ret r <= 0 /\
    (fr_ret r < 0 ->
     fr_err r = ERRSTR "xzreader_read" "unexpected EOF" \/
     (exists e, fr_err r = ERRNO "read" e) \/
     (exists ret, fr_err r = ERRXZ "lzma_code" ret)) /\
    (fr_ret r < 0 -> fr_out r = [] -> stdout = []) /\
    (exists w, fr_out r = stdout ++ w).
Proof.
  induction fuel as [|fuel IH]; intros z st stdout err r Hframe;
    [discriminate|].
  cbn [read_frame] in Hframe.
  destruct (xzreader_read (S fuel) z st size err) as [rr| |] eqn:Hread;
    try discriminate.
  destruct (Z.ltb_spec 0 (rd_ret rr)) as [Hpos|Hle].
  - destruct (IH _ _ _ _ _ Hframe) as (Hret & Hfail & Hempty & (w & Hw)).
    split; [exact Hret|]. split; [exact Hfail|]. split.
    + intros Hneg Hnil. specialize (Hempty Hneg Hnil).
      apply app_eq_nil in Hempty. tauto.
    + eexists. rewrite Hw, <- app_assoc. reflexivity.
  - inversion Hframe; subst r; simpl. clear Hframe.
    split; [exact Hle|]. split; [|split; [auto|]].
    + intros Hneg. revert Hread. unfold xzreader_read.
      destruct (z_eof z).
      * intros Heq. inversion Heq; subst. simpl in Hneg. lia.
      * destruct (Nat.eqb size 0); [discriminate|].
        intros Hloop. exact (read_loop_failure _ _ _ Hloop Hneg).
    + exists []. now rewrite app_nil_r.
Qed.

(** How a pass ends: with a failed [xzreader_read], a failed
    [xzreader_reopen], or a reopen that returned 0. *)
Lemma frames_pass_result (p : fda_ptr) (size : nat) :
  forall fuel z st stdout err r,
    frames_pass fuel p size z st stdout err = Returns r ->
    (ps_failed r = None \/
     (ps_failed r = Some "xzreader_read"%string /\
      (ps_err r = ERRSTR "xzreader_read" "unexpected EOF" \/
       (exists e, ps_err r = ERRNO "read" e) \/
       (exists ret, ps_err r = ERRXZ "lzma_code" ret))) \/
     (ps_failed r = Some "xzreader_reopen"%string /\
      In (fst (ps_err r)) reopen_origins)) /\
    (exists w, ps_out r = stdout ++ w).
Proof.
  induction fuel as [|fuel IH]; intros z st stdout err r Hpass;
    [discriminate|].
  cbn [frames_pass] in Hpass.
  destruct (read_frame (S fuel) z st size stdout err) as [fr| |] eqn:Hfr;
    try discriminate.
  destruct (read_frame_failure _ _ _ _ _ _ Hfr) as (_ & Hfail & _ & Hout).
  destruct (Z.ltb_spec (fr_ret fr) 0) as [Hneg|Hok].
  { inversion Hpass; subst r; simpl. split; [|exact Hout].
    right; left. split; [reflexivity | auto]. }
  destruct (xzreader_reopen (fr_z fr) (Some p) (fr_store fr) (fr_err fr))
    as [ro| |] eqn:Hro; try discriminate.
  destruct (xzreader_reopen_rc _ _ _ _ Hro) as (_ & _ & Horg & _).
  destruct (Z.ltb_spec (ro_rc ro) 0) as [Hrneg|Hrok].
  { inversion Hpass; subst r; simpl. split; [|exact Hout].
    right; right. split; [reflexivity|]. apply Horg.
    destruct (xzreader_reopen_rc _ _ _ _ Hro) as (Hrc & _). lia. }
  destruct (Z.eqb_spec (ro_rc ro) 0) as [Hzero|Hone].
  { inversion Hpass; subst r; simpl. split; [left; reflexivity | exact Hout]. }
  destruct (IH _ _ _ _ _ Hpass) as (Hres & (w & Hw)).
  split; [exact Hres|].
  destruct Hout as (w0 & Hw0). exists (w0 ++ w).
  now rewrite Hw, Hw0, app_assoc.
Qed.

(** The lines of [error] at the three places [main] calls it. *)
Lemma error_lines :
  (forall err, In (fst err) open_origins ->
     error "xzreader_fdopen" err =
     (PROG ++ ": xzreader_fdopen: " ++ fst err ++ ": " ++ snd err ++ NL)%string)
  /\
  (forall err, In (fst err) reopen_origins ->
     error "xzreader_reopen" err =
     (PROG ++ ": xzreader_reopen: " ++ fst err ++ ": " ++ snd err ++ NL)%string)
  /\
  (forall msg,
     error "xzreader_read" ("xzreader_read"%string, msg) =
     (PROG ++ ": xzreader_read: " ++ msg ++ NL)%string) /\
  (forall origin msg, origin = "read"%string \/ origin = "lzma_code"%string ->
     error "xzreader_read" (origin, msg) =
     (PROG ++ ": xzreader_read: " ++ origin ++ ": " ++ msg ++ NL)%string).
Proof.
  split; [|split; [|split]].
  - intros [origin msg] Hin. simpl in Hin.
    destruct Hin as [<-|[<-|[<-|[<-|[<-|[]]]]]]; reflexivity.
  - intros [origin msg] Hin. simpl in Hin.
    destruct Hin as [<-|[<-|[<-|[<-|[]]]]]; reflexivity.
  - intros msg. reflexivity.
  - intros origin msg [->| ->]; reflexivity.
Qed.

(** X11 ([main], [error]): the exit codes and the diagnostics of the
    program.  When [main] returns, it returns 0 or 1.  With 0, [stderr] is
    empty, or the input was empty: nothing is written to [stdout] and
    [stderr] holds "xzreader: empty input".  With 1, [stderr] holds one
    line: "xzreader: xzreader_fdopen: <origin>: <message>" from a failed
    open (and [stdout] is empty), "xzreader: xzreader_reopen: <origin>:
    <message>" from a failed reopen, "xzreader: xzreader_read: <origin>:
    <message>" with the origin "read" or "lzma_code", or "xzreader:
    xzreader_read: unexpected EOF". *)
Theorem main_outcomes (fuel : nat) (d : D) (fdabuf : list byte)
    (zp : option (xzreader E)) (err err' : errinfo) (m : main_result) :
  main fuel d fdabuf zp err err' = Returns m ->
  (m_exit m = 0 /\ m_stderr m = ""%string) \/
  (m_exit m = 0 /\ m_stdout m = [] /\
   m_stderr m = ("xzreader: empty input" ++ NL)%string) \/
  (m_exit m = 1 /\ m_stdout m = [] /\
   exists origin msg, In origin open_origins /\
     m_stderr m =
     ("xzreader: xzreader_fdopen: " ++ origin ++ ": " ++ msg ++ NL)%string) \/
  (m_exit m = 1 /\
   exists origin msg, In origin reopen_origins /\
     m_stderr m =
     ("xzreader: xzreader_reopen: " ++ origin ++ ": " ++ msg ++ NL)%string) \/
  (m_exit m = 1 /\
   exists origin msg, (origin = "read" \/ origin = "lzma_code")%string /\
     m_stderr m =
     ("xzreader: xzreader_read: " ++ origin ++ ": " ++ msg ++ NL)%string) \/
  (m_exit m = 1 /\
   m_stderr m = ("xzreader: xzreader_read: unexpected EOF" ++ NL)%string).
Proof.
  destruct error_lines as (Hopen & Hreopen & Hself & Hread).
  assert (Hpass : forall func e,
    (func = "xzreader_read"%string /\
     (e = ERRSTR "xzreader_read" "unexpected EOF" \/
      (exists n, e = ERRNO "read" n) \/
      (exists ret, e = ERRXZ "lzma_code" ret))) \/
    (func = "xzreader_reopen"%string /\ In (fst e) reopen_origins) ->
    (exists origin msg, In origin reopen_origins /\
       error func e =
       ("xzreader: xzreader_reopen: " ++ origin ++ ": " ++ msg ++ NL)%string) \/
    (exists origin msg, (origin = "read" \/ origin = "lzma_code")%string /\
       error func e =
       ("xzreader: xzreader_read: " ++ origin ++ ": " ++ msg ++ NL)%string) \/
    error func e = ("xzreader: xzreader_read: unexpected EOF" ++ NL)%string).
  { intros func e [(-> & [->|[(n & ->)|(ret & ->)]])|(-> & Hin)].
    - right; right. exact (Hself _).
    - right; left. exists "read"%string, (xstrerror n).
      split; [auto|]. apply Hread. auto.
    - right; left. exists "lzma_code"%string, (lzma_strerror ret).
      split; [auto|]. apply Hread. auto.
    - left. exists (fst e), (snd e). split; [exact Hin|]. exact (Hreopen _ Hin). }
  unfold main.
  destruct (xzreader_open zp 0%nat _ err) as [o| |] eqn:Ho; try discriminate.
  destruct (xzreader_open_rc _ _ _ _ Ho) as (Hrc & _ & Horg & _).
  destruct (Z.ltb_spec (op_rc o) 0) as [Hneg|Hok].
  { intros Heq. inversion Heq; subst m; simpl.
    right; right; left. split; [reflexivity|]. split; [reflexivity|].
    exists (fst (op_err o)), (snd (op_err o)).
    assert (Hin : In (fst (op_err o)) open_origins) by (apply Horg; lia).
    split; [exact Hin|]. exact (Hopen _ Hin). }
  destruct (Z.eqb_spec (op_rc o) 0) as [Hzero|Hone].
  { intros Heq. inversion Heq; subst m; simpl. right; left. auto. }
  destruct (op_zp o) as [z|]; [|discriminate].
  destruct (frames_pass fuel 0%nat main_bufsize z (op_store o) [] (op_err o))
    as [p1| |] eqn:Hp1; try discriminate.
  destruct (frames_pass_result _ _ _ _ _ _ _ Hp1) as (Hres1 & _).
  destruct (ps_failed p1) as [func|] eqn:Hf1.
  { intros Heq. inversion Heq; subst m; simpl.
    destruct Hres1 as [Hnone|Hsome]; [discriminate|].
    assert (Hshape := Hpass func (ps_err p1)).
    destruct Hshape as [Hs|[Hs|Hs]].
    - destruct Hsome as [(Hfn & He)|(Hfn & He)]; inversion Hfn; subst; auto.
    - right; right; right; left. auto.
    - right; right; right; right; left. auto.
    - right; right; right; right; right. auto. }
  destruct (my_rewind (ps_z p1) 0%nat (ps_store p1) err') as [[z2 st2]| |];
    try discriminate.
  destruct (frames_pass fuel 0%nat main_bufsize z2 st2 [] (ps_err p1))
    as [p2| |] eqn:Hp2; try discriminate.
  destruct (frames_pass_result _ _ _ _ _ _ _ Hp2) as (Hres2 & _).
  destruct (ps_failed p2) as [func|] eqn:Hf2.
  - intros Heq. inversion Heq; subst m; simpl.
    destruct Hres2 as [Hnone|Hsome]; [discriminate|].
    assert (Hshape := Hpass func (ps_err p2)).
    destruct Hshape as [Hs|[Hs|Hs]].
    + destruct Hsome as [(Hfn & He)|(Hfn & He)]; inversion Hfn; subst; auto.
    + right; right; right; left. auto.
    + right; right; right; right; left. auto.
    + right; right; right; right; right. auto.
  - intros Heq. inversion Heq; subst m; simpl. left. auto.
Qed.

End MainFacts.

(** * Whole streams through [main.c] *)

Section Streams.

Context {D E : Type} {RD : Reada D} {LS : Lseek D} {LZ : Lzma E} {LC : Libc}.

(** More fuel does not change what a call returns. *)
Lemma read_loop_more_fuel (err : errinfo) :
  forall fuel s r,
    xzreader_read_loop fuel s err = Returns r ->
    forall fuel', (fuel <= fuel')%nat ->
    xzreader_read_loop fuel' s err = Returns r.
Proof.
  induction fuel as [|fuel IH]; intros s r Hloop fuel' Hle; [discriminate|].
  destruct fuel' as [|fuel']; [lia|].
  simpl in *. destruct (xzreader_read_iter s err) as [r'|s1]; [exact Hloop|].
  eapply IH; [eassumption | lia].
Qed.

Lemma xzreader_read_more_fuel (fuel fuel' : nat) (z : xzreader E)
    (st : store D) (size : nat) (err : errinfo) (r : read_result) :
  xzreader_read fuel z st size err = Returns r -> (fuel <= fuel')%nat ->
  xzreader_read fuel' z st size err = Returns r.
Proof.
  unfold xzreader_read. destruct (z_eof z); [auto|].
  destruct (Nat.eqb size 0); [discriminate|].
  intros Hloop Hle. eapply read_loop_more_fuel; eassumption.
Qed.

Lemma read_frame_more_fuel (size : nat) :
  forall fuel z st stdout err r,
    read_frame fuel z st size stdout err = Returns r ->
    forall fuel', (fuel <= fuel')%nat ->
    read_frame fuel' z st size stdout err = Returns r.
Proof.
  induction fuel as [|fuel IH]; intros z st stdout err r Hframe fuel' Hle;
    [discriminate|].
  destruct fuel' as [|fuel']; [lia|].
  cbn [read_frame] in *.
  destruct (xzreader_read (S fuel) z st size err) as [rr| |] eqn:Hread;
    try discriminate.
  assert (Hread' : xzreader_read (S fuel') z st size err = Returns rr)
    by (eapply xzreader_read_more_fuel; [eassumption | lia]).
  rewrite Hread'.
  destruct (0 <? rd_ret rr); [|exact Hframe].
  eapply IH; [eassumption | lia].
Qed.

Variable holds : fda D -> list byte -> Prop.
Variable is_frame : list byte -> list byte -> Prop.
Variable Ready : E -> Prop.
Variable Decoding : E -> list byte -> list byte -> nat -> Prop.
Variable file_of : D -> list byte -> Prop.

Hypothesis SL : SourceLaws holds.
Hypothesis EL : EngineLaws is_frame Ready Decoding.
Hypothesis KL : SeekLaws holds file_of.

(** The calls keep the descriptor on its file. *)
Lemma shrink_window_fd (f : fda D) (a : nat) : fd (shrink_window f a) = fd f.
Proof.
  unfold shrink_window. destruct (negb (Nat.eqb a 0)); reflexivity.
Qed.

Lemma begin_keeps_file (e : E) (p : fda_ptr) (st : store D) (err : errinfo)
    (b : begin_result) (c : list byte) :
  xzreader_begin e p st err = Returns b ->
  file_of (fd (st p)) c -> file_of (fd (bg_store b p)) c.
Proof.
  intros Hb Hf.
  rewrite (proj2 (proj2 (xzreader_begin_rc _ _ _ _ Hb))), upd_same.
  exact (seek_reada KL _ _ Hf).
Qed.

Lemma reopen_keeps_file (z : xzreader E) (p : fda_ptr) (st : store D)
    (err : errinfo) (ro : reopen_result) (c : list byte) :
  xzreader_reopen z (Some p) st err = Returns ro ->
  file_of (fd (st p)) c ->
  file_of (fd (ro_store ro p)) c /\ z_fda (ro_z ro) = p.
Proof.
  intros Hro Hf. revert Hro. unfold xzreader_reopen. simpl.
  assert (Hprobe : forall e,
    match xzreader_begin e p st err with
    | Returns b =>
        Returns (mkreopen (bg_rc b) (mkz p (bg_lzma b) false)
                          (bg_store b) (bg_err b))
    | AssertFails => AssertFails
    | OutOfFuel => OutOfFuel
    end = Returns ro ->
    file_of (fd (ro_store ro p)) c /\ z_fda (ro_z ro) = p).
  { intros e. destruct (xzreader_begin e p st err) as [b| |] eqn:Hb;
      try discriminate.
    intros Heq. inversion Heq; subst ro; simpl.
    split; [eapply begin_keeps_file; eassumption | reflexivity]. }
  destruct (z_eof z); simpl.
  - apply Hprobe.
  - destruct (lzma_stream_decoder MEMLIMIT 0) as [zret lzma].
    destruct (negb (lzma_ret_eqb zret LZMA_OK)).
    + intros Heq. inversion Heq; subst ro; simpl. auto.
    + apply Hprobe.
Qed.

Lemma read_loop_keeps_file (err : errinfo) (c : list byte) :
  forall fuel s r,
    xzreader_read_loop fuel s err = Returns r ->
    file_of (fd (ls_store s (z_fda (ls_z s)))) c ->
    file_of (fd (rd_store r (z_fda (ls_z s)))) c /\
    z_fda (rd_z r) = z_fda (ls_z s).
Proof.
  induction fuel as [|fuel IH]; intros s r Hloop Hf; [discriminate|].
  simpl in Hloop.
  assert (Hpk : file_of (fd (io_fda (iter_peek s))) c)
    by exact (seek_peeka KL _ _ Hf).
  destruct (xzreader_read_iter s err) as [r'|s1] eqn:Hit.
  - inversion Hloop; subst r'.
    destruct (read_iter_break _ _ Hit)
      as [(_ & ->)|[(_ & ->)|[(_ & _ & _ & ->)|(_ & _ & _ & ->)]]]; simpl;
      rewrite upd_same, ?shrink_window_fd; auto.
  - destruct (read_iter_continue _ _ Hit) as (_ & _ & _ & _ & Hs1).
    assert (Hp1 : z_fda (ls_z s1) = z_fda (ls_z s)) by (subst s1; reflexivity).
    assert (Hf1 : file_of (fd (ls_store s1 (z_fda (ls_z s1)))) c).
    { subst s1. simpl. now rewrite upd_same, shrink_window_fd. }
    destruct (IH _ _ Hloop Hf1) as (Hfile & Hp). rewrite Hp1 in *. auto.
Qed.

Lemma read_frame_keeps_file (size : nat) (c : list byte) :
  forall fuel z st stdout err r,
    read_frame fuel z st size stdout err = Returns r ->
    file_of (fd (st (z_fda z))) c ->
    file_of (fd (fr_store r (z_fda z))) c /\ z_fda (fr_z r) = z_fda z.
Proof.
  induction fuel as [|fuel IH]; intros z st stdout err r Hframe Hf;
    [discriminate|].
  cbn [read_frame] in Hframe.
  destruct (xzreader_read (S fuel) z st size err) as [rr| |] eqn:Hread;
    try discriminate.
  assert (Hrr : file_of (fd (rd_store rr (z_fda z))) c /\
                z_fda (rd_z rr) = z_fda z).
  { revert Hread. unfold xzreader_read. destruct (z_eof z).
    - intros Heq. inversion Heq; subst; simpl. auto.
    - destruct (Nat.eqb size 0); [discriminate|].
      intros Hloop. eapply read_loop_keeps_file in Hloop; [|eassumption].
      exact Hloop. }
  destruct Hrr as (Hfile & Hp).
  destruct (0 <? rd_ret rr).
  - rewrite <- Hp in Hfile.
    destruct (IH _ _ _ _ _ Hframe Hfile) as (Hfile' & Hp').
    rewrite Hp in *. auto.
  - inversion Hframe; subst r; simpl. auto.
Qed.

(** A pass keeps the descriptor on its file, and a pass that ends without a
    failure leaves the reader as a reopen does: on the same source, with
    [eof] clear. *)
Lemma frames_pass_keeps_file (p : fda_ptr) (size : nat) (c : list byte) :
  forall fuel z st stdout err r,
    frames_pass fuel p size z st stdout err = Returns r ->
    z_fda z = p -> file_of (fd (st p)) c ->
    file_of (fd (ps_store r p)) c /\
    (ps_failed r = None -> z_eof (ps_z r) = false /\ z_fda (ps_z r) = p).
Proof.
  induction fuel as [|fuel IH]; intros z st stdout err r Hpass Hp Hf;
    [discriminate|].
  cbn [frames_pass] in Hpass.
  destruct (read_frame (S fuel) z st size stdout err) as [fr| |] eqn:Hfr;
    try discriminate.
  rewrite <- Hp in Hf.
  pose proof Hfr as Hkeep.
  eapply read_frame_keeps_file in Hkeep; [|eassumption].
  destruct Hkeep as (Hfile & Hpf).
  rewrite Hp in *.
  destruct (fr_ret fr <? 0).
  { inversion Hpass; subst r; simpl. split; [assumption | discriminate]. }
  destruct (xzreader_reopen (fr_z fr) (Some p) (fr_store fr) (fr_err fr))
    as [ro| |] eqn:Hro; try discriminate.
  pose proof Hro as Hkeep'.
  eapply reopen_keeps_file in Hkeep'; [|eassumption].
  destruct Hkeep' as (Hfile' & Hpr).
  destruct (xzreader_reopen_rc _ _ _ _ Hro) as (_ & _ & _ & Heof).
  destruct (ro_rc ro <? 0).
  { inversion Hpass; subst r; simpl. split; [assumption | discriminate]. }
  destruct (ro_rc ro =? 0).
  { inversion Hpass; subst r; simpl. auto. }
  eapply IH; eassumption.
Qed.

(** A pass that starts inside a truncated frame. *)
Lemma frames_pass_truncated_now (p : fda_ptr) (size : nat)
    (z : xzreader E) (st : store D) (t missing rout : list byte) (m : nat)
    (stdout : list byte) (err : errinfo) :
  (0 < size)%nat -> missing <> [] ->
  z_eof z = false -> z_fda z = p ->
  Decoding (z_lzma z) (t ++ missing) rout m ->
  holds (st p) t ->
  exists r,
    (forall fuel, (m + 2 <= fuel)%nat ->
       frames_pass fuel p size z st stdout err = Returns r) /\
    ps_failed r = Some "xzreader_read"%string /\
    ps_err r = ERRSTR "xzreader_read" "unexpected EOF".
Proof.
  intros Hsize Hmiss Hz Hp Hdec Hh. rewrite <- Hp in Hh.
  destruct (read_frame_truncated SL EL err Hmiss Hsize (fuel := (m + 1)%nat)
              z st t rout m stdout Hz Hdec Hh (Nat.le_refl _))
    as (r & w & rout' & Hframe & Hret & Herr & _).
  exists (mkpass (Some "xzreader_read"%string) (fr_out r) (fr_z r)
                 (fr_store r) (fr_err r)).
  split; [|split; [reflexivity | exact Herr]].
  intros fuel Hfuel. destruct fuel as [|fuel]; [lia|].
  cbn [frames_pass].
  assert (Hmore : read_frame (S fuel) z st size stdout err = Returns r)
    by (eapply read_frame_more_fuel; [eassumption | lia]).
  rewrite Hmore, Hret. reflexivity.
Qed.

(** A pass inside the last frame of a stream: the rest of a valid frame,
    then [s], which is shorter than a header.  With enough fuel the pass
    ends, the content of the frame written: without a failure when [s] is
    empty, and with "input too small" from [xzreader_reopen] otherwise.
    The reopen at the end reads what is left of the source and does not
    run the decoder. *)
Lemma frames_pass_last_frame (p : fda_ptr) (size : nat) (z : xzreader E)
    (st : store D) (rin rout s : list byte) (m : nat) (stdout : list byte)
    (err : errinfo) :
  (0 < size)%nat -> (length s < LZMA_STREAM_HEADER_SIZE)%nat ->
  z_eof z = false -> z_fda z = p ->
  Decoding (z_lzma z) rin rout m ->
  holds (st p) (rin ++ s) ->
  exists r,
    (forall fuel, (m + 2 <= fuel)%nat ->
       frames_pass fuel p size z st stdout err = Returns r) /\
    ps_out r = stdout ++ rout /\
    (s = [] -> ps_failed r = None /\ ps_err r = err) /\
    (s <> [] ->
     ps_failed r = Some "xzreader_reopen"%string /\
     ps_err r = ERRSTR "xzreader_begin" "input too small").
Proof.
  intros Hsize Hshort Hz Hp Hdec Hh. rewrite <- Hp in Hh.
  destruct (read_frame_decodes SL EL err s Hsize (fuel := (m + 2)%nat)
              z st rin rout m stdout Hz Hdec Hh (Nat.le_refl _))
    as (r1 & Hframe & Hret & Hout & Heof & Herr & Hp1 & Hrest & _).
  rewrite Hp in Hp1, Hrest.
  assert (Hmore : forall fuel, (m + 2 <= fuel)%nat ->
            read_frame fuel z st size stdout err = Returns r1)
    by (intros fuel Hfuel; eapply read_frame_more_fuel; eassumption).
  assert (Hro : xzreader_reopen (fr_z r1) (Some p) (fr_store r1) (fr_err r1) =
                match xzreader_begin (z_lzma (fr_z r1)) p (fr_store r1) err
                with
                | Returns b =>
                    Returns (mkreopen (bg_rc b) (mkz p (bg_lzma b) false)
                                      (bg_store b) (bg_err b))
                | AssertFails => AssertFails
                | OutOfFuel => OutOfFuel
                end).
  { unfold xzreader_reopen. simpl. rewrite Heof, Herr. reflexivity. }
  destruct (begin_short SL (z_lzma (fr_z r1)) p (fr_store r1) err s
                        Hrest Hshort) as (_ & _ & Hempty & Hsmall).
  destruct s as [|b s].
  - rewrite (Hempty eq_refl) in Hro.
    eexists. split.
    { intros fuel Hfuel. destruct fuel as [|fuel]; [lia|].
      cbn [frames_pass]. rewrite (Hmore (S fuel) Hfuel), Hret, Hro.
      simpl. reflexivity. }
    simpl. split; [exact Hout|]. split; [auto|].
    intros Hne. now contradiction Hne.
  - rewrite (Hsmall ltac:(discriminate)) in Hro.
    eexists. split.
    { intros fuel Hfuel. destruct fuel as [|fuel]; [lia|].
      cbn [frames_pass]. rewrite (Hmore (S fuel) Hfuel), Hret, Hro.
      simpl. reflexivity. }
    simpl. split; [exact Hout|]. split; [discriminate | auto].
Qed.

Lemma open_keeps_file (zp : option (xzreader E)) (p : fda_ptr)
    (st : store D) (err : errinfo) (o : open_result) (c : list byte) :
  xzreader_open zp p st err = Returns o ->
  file_of (fd (st p)) c -> file_of (fd (op_store o p)) c.
Proof.
  intros Ho Hf. revert Ho. unfold xzreader_open.
  destruct (lzma_stream_decoder MEMLIMIT 0) as [zret lzma].
  destruct (negb (lzma_ret_eqb zret LZMA_OK)).
  { intros Heq. inversion Heq; subst o. exact Hf. }
  destruct (xzreader_begin lzma p st err) as [b| |] eqn:Hb; try discriminate.
  eapply begin_keeps_file in Hb; [|eassumption].
  destruct (bg_rc b <=? 0); [|destruct malloc];
    intros Heq; inversion Heq; subst o; exact Hb.
Qed.




(** How a read that completes a frame leaves a decoder that serves one
    frame: answering [LZMA_STREAM_END]. *)
Lemma read_loop_spent (err : errinfo) :
  (forall e inp n,
     co_ret (lzma_code e inp n) = LZMA_STREAM_END ->
     forall inp' n',
       co_ret (lzma_code (co_strm (lzma_code e inp n)) inp' n') =
       LZMA_STREAM_END) ->
  forall fuel s r,
    z_eof (ls_z s) = false ->
    xzreader_read_loop fuel s err = Returns r ->
    z_eof (rd_z r) = true ->
    forall inp n,
      co_ret (lzma_code (z_lzma (rd_z r)) inp n) = LZMA_STREAM_END.
Proof.
  intros Hspent.
  induction fuel as [|fuel IH]; intros s r Hz Hloop Heof; [discriminate|].
  simpl in Hloop. destruct (xzreader_read_iter s err) as [r'|s1] eqn:Hit.
  - inversion Hloop; subst r'. clear Hloop.
    destruct (read_iter_break _ _ Hit)
      as [(_ & ->)|[(_ & ->)|[(_ & Hne & _ & ->)|(_ & _ & _ & ->)]]];
      simpl in Heof |- *; try congruence.
    + destruct (lzma_ret_eqb_spec (co_ret (iter_code s)) LZMA_STREAM_END);
        congruence.
    + destruct (lzma_ret_eqb_spec (co_ret (iter_code s)) LZMA_STREAM_END)
        as [Hend|Hn]; [|congruence].
      exact (Hspent _ _ _ Hend).
  - destruct (read_iter_continue _ _ Hit) as (_ & _ & _ & _ & Hs1).
    apply (IH s1 r); [subst s1; reflexivity | exact Hloop | exact Heof].
Qed.

Lemma read_frame_spent (size : nat) :
  (forall e inp n,
     co_ret (lzma_code e inp n) = LZMA_STREAM_END ->
     forall inp' n',
       co_ret (lzma_code (co_strm (lzma_code e inp n)) inp' n') =
       LZMA_STREAM_END) ->
  forall fuel z st stdout err r,
    z_eof z = false ->
    read_frame fuel z st size stdout err = Returns r ->
    z_eof (fr_z r) = true ->
    forall inp n,
      co_ret (lzma_code (z_lzma (fr_z r)) inp n) = LZMA_STREAM_END.
Proof.
  intros Hspent.
  induction fuel as [|fuel IH]; intros z st stdout err r Hz Hframe Heof;
    [discriminate|].
  cbn [read_frame] in Hframe.
  destruct (xzreader_read (S fuel) z st size err) as [rr| |] eqn:Hread;
    try discriminate.
  assert (Hloop : xzreader_read_loop (S fuel) (mkloop z st [] size 0) err =
                  Returns rr).
  { revert Hread. unfold xzreader_read. rewrite Hz.
    destruct (Nat.eqb size 0); [discriminate | auto]. }
  destruct (z_eof (rd_z rr)) eqn:Hrz.
  - assert (Hrr : forall inp n,
              co_ret (lzma_code (z_lzma (rd_z rr)) inp n) = LZMA_STREAM_END)
      by exact (@read_loop_spent err Hspent (S fuel) (mkloop z st [] size 0)
                                  rr Hz Hloop Hrz).
    destruct (0 <? rd_ret rr).
    + destruct fuel as [|fuel]; [discriminate|].
      rewrite (read_frame_at_eof _ _ _ _ _ _ Hrz) in Hframe.
      inversion Hframe; subst r. exact Hrr.
    + inversion Hframe; subst r. exact Hrr.
  - destruct (0 <? rd_ret rr).
    + eapply IH; eassumption.
    + inversion Hframe; subst r. simpl in Heof. congruence.
Qed.


End Streams.

(** * The small source and the small decoder keep the promises *)

#[local] Existing Instance toy_source.
#[local] Existing Instance toy_engine.
#[local] Existing Instance toy_libc.

Lemma toy_fill_window (f : fda (list byte)) :
  window (toy_fill f) =
  window f ++ firstn (toy_NREADA - length (window f)) (fd f).
Proof.
  unfold toy_fill, window at 1. cbn [cur end_ buf ptr_diff].
  rewrite skipn_O, Nat.sub_0_r, <- length_app. apply firstn_all.
Qed.

Lemma toy_fill_holds (f : fda (list byte)) (s : list byte) :
  toy_holds f s -> toy_holds (toy_fill f) s.
Proof.
  intros (Hwf & ->). split.
  - unfold wf_fda, toy_fill. cbn [cur end_ buf]. rewrite length_app. lia.
  - rewrite toy_fill_window. unfold toy_fill. cbn [fd].
    now rewrite <- app_assoc, firstn_skipn.
Qed.

Lemma toy_source_laws : SourceLaws toy_holds.
Proof.
  constructor.
  - intros f s (_ & ->). now exists (fd f).
  - intros f s (Hwf & _). exact Hwf.
  - intros f s n Hh Hn. cbn [peeka toy_source]. unfold toy_peeka.
    destruct (Nat.leb_spec n (length (window f))) as [Hle|Hgt];
      cbn [io_fda io_ret].
    + split; [exact Hh|]. split.
      * intros ->. destruct Hh as (_ & Hs).
        destruct (window f); [simpl in Hle; lia | discriminate].
      * intros _. split; [lia|].
        destruct (window f); [simpl in Hle; lia | discriminate].
    + split; [now apply toy_fill_holds|].
      rewrite toy_fill_window. destruct Hh as (_ & ->). split.
      * intros Hnil. apply app_eq_nil in Hnil. destruct Hnil as (-> & ->).
        now rewrite firstn_nil.
      * intros Hne.
        assert (Hfill : window f ++
                        firstn (toy_NREADA - length (window f)) (fd f) <> []).
        { destruct (window f) as [|b w]; [|discriminate].
          destruct (fd f) as [|b l]; [now contradiction Hne|].
          discriminate. }
        split; [|exact Hfill].
        rewrite length_firstn.
        destruct (window f ++
                  firstn (toy_NREADA - length (window f)) (fd f));
          [contradiction|simpl; lia].
  - intros f s n (Hwf & ->) Hn. cbn [reada toy_source]. unfold toy_reada.
    destruct (Nat.leb_spec n (length (window f))) as [Hle|Hgt];
      cbn [io_fda io_ret io_bytes].
    + rewrite firstn_app.
      replace (n - length (window f))%nat with 0%nat by lia.
      rewrite firstn_O, app_nil_r, length_firstn.
      split; [f_equal; lia|]. split; [reflexivity|].
      pose proof (window_length f Hwf) as Hlen.
      unfold wf_fda in Hwf. unfold window, ptr_diff in *.
      destruct (cur f) as [c|] eqn:Hc, (end_ f) as [e|] eqn:He;
        try contradiction; try (simpl in Hle; lia).
      split.
      * unfold wf_fda, set_cur. cbn [cur end_ buf option_map]. rewrite He. lia.
      * unfold set_cur. cbn [cur end_ buf fd option_map]. rewrite He.
        rewrite skipn_app.
        replace (n - length (firstn (e - c) (skipn c (buf f))))%nat
          with 0%nat by lia.
        rewrite skipn_O. f_equal.
        rewrite skipn_firstn_comm, skipn_skipn.
        unfold window. cbn [cur end_ buf ptr_diff].
        f_equal; [lia|]. f_equal. lia.
    + split; [reflexivity|]. split; [reflexivity|]. split.
      * unfold wf_fda. cbn [cur end_]. exact I.
      * rewrite skipn_app, skipn_all2 by lia. reflexivity.
  - intros f s a (Hwf & ->) Ha. split; [now apply wf_shrink|].
    rewrite (window_shrink f Hwf Ha), skipn_app.
    replace (length (window f) - a - length (window f))%nat with 0%nat by lia.
    rewrite skipn_O. f_equal.
    unfold shrink_window. destruct (negb (a =? 0)%nat); reflexivity.
Qed.

Lemma toy_plain_eqb (b : byte) :
  toy_plain b -> Byte.eqb b x00 = false /\ Byte.eqb b xff = false.
Proof.
  intros (H0 & Hf). split.
  - destruct (Byte.eqb b x00) eqn:Heq; [|reflexivity].
    apply byte_dec_bl in Heq. contradiction.
  - destruct (Byte.eqb b xff) eqn:Heq; [|reflexivity].
    apply byte_dec_bl in Heq. contradiction.
Qed.

(** The body decoder on a window that overlaps the rest of a frame. *)
Lemma toy_body_spec (inp : list byte) :
  forall rout tail rest room,
    Forall toy_plain rout ->
    inp ++ tail = (rout ++ [x00]) ++ rest ->
    let '(ret, c, w, s) := toy_body inp room in
    (c <= length inp)%nat /\ (length w <= room)%nat /\
    (length w <= length rout)%nat /\ w = firstn (length w) rout /\
    ((ret = LZMA_STREAM_END /\ c = S (length rout) /\
      length w = length rout /\ s = TInit) \/
     (ret = LZMA_OK /\ c = length w /\ s = TBody /\
      (inp <> [] -> (0 < room)%nat -> (0 < c)%nat))).
Proof.
  induction inp as [|b inp IH]; intros rout tail rest room Hplain Heq.
  - simpl. repeat split; try lia. right. repeat split; auto.
    intros Hne. contradiction.
  - destruct rout as [|r0 rout].
    + simpl in Heq. inversion Heq; subst b. simpl.
      repeat split; try lia. left. auto.
    + simpl in Heq. inversion Heq as [[Hb Htl]]. subst r0.
      inversion Hplain as [|? ? Hpb Hprest]; subst.
      destruct (toy_plain_eqb Hpb) as (E0 & Ef).
      cbn [toy_body]. rewrite E0, Ef.
      destruct room as [|room].
      * simpl. repeat split; try lia. right. repeat split; auto; lia.
      * specialize (IH rout tail rest room Hprest Htl).
        destruct (toy_body inp room) as [[[ret c] w] s].
        destruct IH as (Hc & Hw & Hwr & Hwf & Hcases).
        simpl. repeat split; try lia.
        -- now rewrite <- Hwf.
        -- destruct Hcases as [(-> & -> & Hl & ->)|(-> & -> & -> & _)].
           ++ left. repeat split; auto.
           ++ right. repeat split; auto. lia.
Qed.

Lemma toy_engine_laws : EngineLaws toy_is_frame toy_Ready toy_Decoding.
Proof.
  constructor.
  - intros fr d (-> & _). rewrite !length_app.
    unfold LZMA_STREAM_HEADER_SIZE. simpl. lia.
  - intros ret e Hdec _. inversion Hdec. reflexivity.
  - intros e fr d -> (-> & Hplain).
    rewrite firstn_app. change (length toy_magic) with 12%nat.
    change (LZMA_STREAM_HEADER_SIZE - 12)%nat with 0%nat.
    rewrite firstn_O, app_nil_r.
    change (firstn LZMA_STREAM_HEADER_SIZE toy_magic) with toy_magic.
    change (lzma_code TInit toy_magic 0)
      with (mkcode LZMA_OK 0 0 [] TBody).
    cbn [co_ret co_avail_in co_written co_strm].
    repeat split. exists (length (d ++ [x00])).
    change LZMA_STREAM_HEADER_SIZE with (length toy_magic).
    rewrite skipn_app, Nat.sub_diag, skipn_all, skipn_O.
    repeat split; auto.
  - intros e rin rout m (_ & -> & _) Hnil.
    apply app_eq_nil in Hnil. destruct Hnil as (_ & Hnil). discriminate.
  - intros e rin rout m inp tail rest n (-> & -> & Hplain & ->) Hne Heq Hn.
    cbn [lzma_code toy_engine toy_code].
    pose proof (@toy_body_spec inp rout tail rest n Hplain Heq) as Hspec.
    destruct (toy_body inp n) as [[[ret c] w] s].
    destruct Hspec as (Hc & Hw & Hwr & Hwf & Hcases).
    cbn [co_ret co_avail_in co_avail_out co_written co_strm].
    exists c, (length w). rewrite length_app. simpl.
    split; [lia|].
    destruct Hcases as [(-> & -> & Hl & ->)|(-> & -> & -> & Hprog)].
    + repeat split; try lia; auto. left. repeat split; auto. lia.
    + repeat split; try lia; auto. right. split; [reflexivity|].
      exists (length (skipn (length w) (rout ++ [x00]))).
      split.
      * rewrite length_skipn, length_app. simpl.
        specialize (Hprog Hne Hn). lia.
      * repeat split; auto.
        -- rewrite skipn_app.
           replace (length w - length rout)%nat with 0%nat by lia.
           now rewrite skipn_O.
        -- rewrite <- (firstn_skipn (length w) rout) in Hplain.
           apply Forall_app in Hplain. tauto.
Qed.

(** * The properties at work on the small source and the small decoder *)

(** The small decoder never reports more room than it was given. *)
Lemma toy_code_room (e : toy_strm) (inp : list byte) (n : nat) :
  (co_avail_out (lzma_code e inp n) <= n)%nat.
Proof.
  cbn [lzma_code toy_engine]. unfold toy_code. destruct e.
  - destruct (length inp <? 12)%nat; [simpl; lia|].
    destruct (bytes_eqb (firstn 12 inp) toy_magic); simpl; lia.
  - destruct (toy_body inp n) as [[[ret c] w] s]. simpl. lia.
Qed.




(** What the frame loop computes on the two frames, with a one-byte
    buffer. *)
Example read_frame_AB :
  match xzreader_open None 0%nat (toy_store two_frames) no_err with
  | Returns o =>
      match op_zp o with
      | Some z =>
          match read_frame 5 z (op_store o) 1 [] (op_err o) with
          | Returns r =>
              fr_ret r = 0 /\ fr_out r = [x41; x42] /\
              z_eof (fr_z r) = true /\
              window (fr_store r 0%nat) = firstn 5 frame_C /\
              fd (fr_store r 0%nat) = skipn 5 frame_C
          | _ => False
          end
      | None => False
      end
  | _ => False
  end.
Proof. vm_compute. repeat split. Qed.

(** C2 (as amended) on the rest of frame "AB": 2 bytes returned in a buffer
    of 8, the decoder having returned [LZMA_STREAM_END]. *)
Lemma read_postcondition_witness :
  let r := toy_break (toy_loop body_AB_more 8) in
  xzreader_read 1 toy_z_body (toy_store body_AB_more) 8 no_err = Returns r /\
  rd_ret r = 2 /\
  ((rd_ret r = -1 /\
    (rd_err r = ERRSTR "xzreader_read" "unexpected EOF" \/
     (exists e, rd_err r = ERRNO "read" e) \/
     (exists ret, rd_err r = ERRXZ "lzma_code" ret))) \/
   (0 <= rd_ret r <= Z.of_nat 8 /\ rd_err r = no_err /\
    (rd_ret r < Z.of_nat 8 ->
     z_eof (rd_z r) = true /\
     ((z_eof toy_z_body = true /\ rd_ret r = 0) \/
      (z_eof toy_z_body = false /\
       exists k s',
         iter_steps no_err k
           (mkloop toy_z_body (toy_store body_AB_more) [] 8 0) s' /\
         0 < io_ret (iter_peek s') /\
         co_ret (iter_code s') = LZMA_STREAM_END))))).
Proof.
  intros r. split; [reflexivity|]. split; [reflexivity|].
  apply (@read_postcondition _ _ toy_source toy_engine toy_libc
           1 toy_z_body (toy_store body_AB_more) 8 no_err r).
  - exact toy_code_room.
  - lia.
  - reflexivity.
Defined.

(** C2 as stated fails on a reader whose frame is complete: the call
    returns 0, less than the capacity 1, and no decode step of this call
    returned [LZMA_STREAM_END] (there was none). *)
Lemma read_short_without_stream_end :
  exists r,
    xzreader_read 1 toy_z_done (toy_store []) 1 no_err = Returns r /\
    0 <= rd_ret r /\ rd_ret r < Z.of_nat 1 /\
    ~ (exists k s',
         iter_steps no_err k (mkloop toy_z_done (toy_store []) [] 1 0) s' /\
         0 < io_ret (iter_peek s') /\
         co_ret (iter_code s') = LZMA_STREAM_END).
Proof.
  eexists. split; [reflexivity|]. cbn [rd_ret].
  split; [lia|]. split; [lia|].
  intros (k & s' & Hsteps & Hpk & _).
  inversion Hsteps as [s Hs|k' s s1 s2 Hit Hrest]; subst.
  - vm_compute in Hpk. discriminate.
  - vm_compute in Hit. discriminate.
Qed.

(** C3 (as amended) on a valid frame, on an empty source and on a source of
    two bytes. *)
Lemma open_outcomes_witness :
  xzreader_open None 0%nat (toy_store two_frames) no_err =
  Returns (mkopen 1 (Some toy_z_body)
                  (upd (toy_store two_frames) 0%nat
                       (io_fda (reada (toy_fda two_frames)
                                      LZMA_STREAM_HEADER_SIZE)))
                  no_err) /\
  xzreader_open None 0%nat (toy_store []) no_err =
  Returns (mkopen 0 None
                  (upd (toy_store []) 0%nat
                       (io_fda (reada (toy_fda []) LZMA_STREAM_HEADER_SIZE)))
                  no_err) /\
  xzreader_open None 0%nat (toy_store [xfd; x37]) no_err =
  Returns (mkopen (-1) None
                  (upd (toy_store [xfd; x37]) 0%nat
                       (io_fda (reada (toy_fda [xfd; x37])
                                      LZMA_STREAM_HEADER_SIZE)))
                  ("xzreader_begin", "input too small")%string).
Proof.
  split; [|split].
  - apply (@open_outcomes _ _ toy_source toy_engine toy_libc
             None 0%nat (toy_store two_frames) no_err TInit eq_refl);
      try reflexivity; vm_compute; discriminate.
  - apply (@open_outcomes _ _ toy_source toy_engine toy_libc
             None 0%nat (toy_store []) no_err TInit eq_refl).
    reflexivity.
  - apply (@open_outcomes _ _ toy_source toy_engine toy_libc
             None 0%nat (toy_store [xfd; x37]) no_err TInit eq_refl).
    vm_compute. split; reflexivity.
Defined.

(** C3 as stated fails in a process that is out of memory.  The decoder
    accepts the header and [malloc] fails: -1 and no reader; and the source
    is empty and the decoder cannot be constructed: an error, not
    "empty". *)
Lemma open_without_memory :
  (exists o,
     @xzreader_open _ _ toy_source toy_engine toy_libc_nomem
       None 0%nat (toy_store two_frames) no_err = Returns o /\
     io_ret (reada (toy_fda two_frames) LZMA_STREAM_HEADER_SIZE) = 12 /\
     co_ret (lzma_code TInit
               (io_bytes (reada (toy_fda two_frames) LZMA_STREAM_HEADER_SIZE))
               0) = LZMA_OK /\
     op_rc o = -1 /\ op_zp o = None /\
     op_err o = ("malloc", "Cannot allocate memory")%string) /\
  (exists o,
     @xzreader_open _ _ toy_source toy_engine_nomem toy_libc
       None 0%nat (toy_store []) no_err = Returns o /\
     io_ret (reada (toy_fda []) LZMA_STREAM_HEADER_SIZE) = 0 /\
     op_rc o = -1 /\
     op_err o = ("lzma_stream_decoder", "Memory allocation failed")%string).
Proof.
  split; eexists; (split; [reflexivity|]); repeat split.
Qed.

(** C10 on a valid frame. *)
Lemma open_sets_handle_witness :
  let o := mkopen 1 (Some toy_z_body)
                  (upd (toy_store two_frames) 0%nat
                       (io_fda (reada (toy_fda two_frames)
                                      LZMA_STREAM_HEADER_SIZE)))
                  no_err in
  xzreader_open None 0%nat (toy_store two_frames) no_err = Returns o /\
  ((op_rc o = 1 /\ malloc = MallocOk /\
    exists e, op_zp o = Some (mkz 0%nat e false)) \/
   ((op_rc o = 0 \/ op_rc o = -1) /\ op_zp o = None)).
Proof.
  intros o. split; [reflexivity|].
  apply (@open_sets_handle_only_on_success _ _ toy_source toy_engine toy_libc
           None 0%nat (toy_store two_frames) no_err o).
  reflexivity.
Defined.


(** Reopen after a complete frame, on the second of the two frames. *)
Example reopen_on_frame_C :
  match xzreader_open None 0%nat (toy_store two_frames) no_err with
  | Returns o =>
      match op_zp o with
      | Some z =>
          match read_frame 5 z (op_store o) 1 [] (op_err o) with
          | Returns r =>
              match xzreader_reopen (fr_z r) None (fr_store r) (fr_err r) with
              | Returns ro =>
                  ro_rc ro = 1 /\ ro_z ro = toy_z_body /\
                  window (ro_store ro 0%nat) = [] /\
                  fd (ro_store ro 0%nat) = [x43; x00]
              | _ => False
              end
          | _ => False
          end
      | None => False
      end
  | _ => False
  end.
Proof. vm_compute. repeat split. Qed.

(** C6 on a reader whose frame is complete. *)
Lemma read_after_completion_witness :
  (forall (RD' : Reada (list byte)) (LZ' : Lzma toy_strm) (LC' : Libc)
          fuel size,
     @xzreader_read _ _ RD' LZ' LC' fuel toy_z_done (toy_store frame_C)
                    size no_err =
     Returns (mkread 0 [] toy_z_done (toy_store frame_C) no_err)) /\
  (forall fuel sizes,
     read_calls fuel toy_z_done (toy_store frame_C) no_err sizes =
     Returns (map (fun _ => 0) sizes, toy_z_done, toy_store frame_C, no_err)).
Proof.
  apply (@read_after_completion_is_noop _ _ toy_source toy_engine toy_libc
           toy_z_done (toy_store frame_C) no_err).
  reflexivity.
Defined.

(** C4 on a body cut short: the first iteration stores "AB", the second
    finds the end of the descriptor. *)
Lemma read_unexpected_eof_witness :
  let s' := toy_next (toy_loop body_truncated 8) in
  xzreader_read 2 toy_z_body (toy_store body_truncated) 8 no_err =
  Returns (mkread (-1) (ls_out s') (ls_z s')
                  (upd (ls_store s') (z_fda (ls_z s'))
                       (io_fda (iter_peek s')))
                  (ERRSTR "xzreader_read" "unexpected EOF")) /\
  ls_out s' = [x41; x42].
Proof.
  intros s'. split; [|reflexivity].
  apply (@read_unexpected_eof _ _ toy_source toy_engine toy_libc
           2 toy_z_body (toy_store body_truncated) 8 no_err 1 s').
  - reflexivity.
  - lia.
  - eapply steps_S; [reflexivity | apply steps_O].
  - reflexivity.
  - lia.
Defined.

(** C9 on a body with a corrupt byte behind a full buffer: the first
    iteration consumes and stores 8 bytes, the second fails; the call
    returns -1, the 8 bytes are in the buffer and gone from the source. *)
Lemma read_failure_witness :
  let sp := toy_loop body_corrupt_late 16 in
  let s' := toy_next sp in
  let r := toy_break s' in
  xzreader_read 2 toy_z_body (toy_store body_corrupt_late) 16 no_err =
  Returns r /\
  rd_ret r = -1 /\
  ls_total s' = 8%nat /\
  rd_buf r = [x41; x42; x43; x44; x45; x46; x47; x48] /\
  window (rd_store r 0%nat) = [xff] /\
  fd (rd_store r 0%nat) = [] /\
  rd_err r = ("lzma_code", "Compressed file is corrupt")%string.
Proof.
  intros sp s' r.
  destruct (@read_failure_keeps_side_effects _ _ toy_source toy_engine
              toy_libc 2 toy_z_body (toy_store body_corrupt_late) 16 no_err
              0 sp s' r)
    as (Hread & Hret & _).
  - reflexivity.
  - lia.
  - apply steps_O.
  - reflexivity.
  - reflexivity.
  - reflexivity.
  - lia.
  - split; [exact Hread|]. split; [exact Hret|].
    repeat split.
Defined.

(** C7 (as amended) on the rest of frame "AB" followed by one byte: three
    of four bytes consumed, the fourth left in the window. *)
Lemma window_accounting_witness :
  let s := toy_loop body_AB_more 8 in
  let f' := it_store (xzreader_read_iter s no_err) 0%nat in
  window (io_fda (iter_peek s)) = [x41; x42; x00; xfd] /\
  co_avail_in (iter_code s) = 1%nat /\
  window f' = [xfd] /\ cur f' = Some 3%nat /\ end_ f' = Some 4%nat.
Proof.
  intros s f'.
  destruct (@window_accounting _ _ toy_source toy_engine toy_libc s no_err)
    as (Hwin & _ & _ & _ & _ & Hcur & _).
  - reflexivity.
  - vm_compute. lia.
  - vm_compute. lia.
  - right. reflexivity.
  - split; [reflexivity|]. split; [reflexivity|].
    split; [exact Hwin|].
    destruct (Hcur ltac:(discriminate)) as (He & c & e & Hc & He' & Hc' & _).
    split.
    + vm_compute in Hc. inversion Hc; subst c. exact Hc'.
    + exact He.
Defined.

(** C7 as stated fails on a decode step that fails.  The decoder consumes
    two of the three bytes offered and fails on the second: the call returns -1 and the window is as it was offered. *)
Lemma window_kept_on_decoder_error :
  let s := toy_loop body_corrupt 8 in
  0 < io_ret (iter_peek s) /\
  window (io_fda (iter_peek s)) = [x41; xff; x42] /\
  co_ret (iter_code s) = LZMA_DATA_ERROR /\
  co_avail_in (iter_code s) = 1%nat /\
  co_written (iter_code s) = [x41] /\
  (exists r, xzreader_read_iter s no_err = Break r /\ rd_ret r = -1) /\
  window (it_store (xzreader_read_iter s no_err) 0%nat) = [x41; xff; x42] /\
  window (it_store (xzreader_read_iter s no_err) 0%nat) <>
  skipn (length (window (io_fda (iter_peek s))) - co_avail_in (iter_code s))
        (window (io_fda (iter_peek s))).
Proof.
  intros s. repeat split.
  - eexists. split; reflexivity.
  - vm_compute. discriminate.
Qed.


(** * The seekable small source, and the decoder that serves one frame *)

Lemma toy_body_end (inp : list byte) :
  forall room,
    let '(ret, c, w, s) := toy_body inp room in
    (length w <= room)%nat /\ (ret = LZMA_STREAM_END -> s = TInit).
Proof.
  induction inp as [|b inp IH]; intros room; simpl.
  - split; [lia | discriminate].
  - destruct (Byte.eqb b x00); [simpl; split; [lia | reflexivity]|].
    destruct (Byte.eqb b xff); [simpl; split; [lia | discriminate]|].
    destruct room as [|room]; [simpl; split; [lia | discriminate]|].
    specialize (IH room). destruct (toy_body inp room) as [[[ret c] w] s].
    simpl. destruct IH. split; [lia | assumption].
Qed.

(** The small decoder accounts for the bytes it stores. *)
Lemma toy_code_exact (e : toy_strm) (inp : list byte) (n : nat) :
  (length (co_written (lzma_code e inp n)) +
   co_avail_out (lzma_code e inp n) = n)%nat.
Proof.
  cbn [lzma_code toy_engine]. unfold toy_code. destruct e.
  - destruct (length inp <? 12)%nat; [reflexivity|].
    destruct (bytes_eqb (firstn 12 inp) toy_magic); reflexivity.
  - pose proof (toy_body_end inp n) as Hend.
    destruct (toy_body inp n) as [[[ret c] w] s]. simpl.
    destruct Hend as (Hw & _). lia.
Qed.

Lemma toy_down_up (c : list byte) (g : fda (list byte)) :
  toy_down (toy_up c g) = g.
Proof. destruct g; reflexivity. Qed.

Lemma toy_down_shrink (f : fda toy_file) (a : nat) :
  toy_down (shrink_window f a) = shrink_window (toy_down f) a.
Proof.
  unfold shrink_window. destruct (negb (Nat.eqb a 0)); reflexivity.
Qed.

Lemma toy_seek_source_laws : @SourceLaws toy_file toy_seek_source toy_seek_holds.
Proof.
  constructor; unfold toy_seek_holds.
  - intros f s Hh. exact (src_window toy_source_laws Hh).
  - intros f s Hh. exact (src_wf toy_source_laws Hh).
  - intros f s n Hh Hn.
    destruct (src_peeka toy_source_laws (n := n) Hh Hn) as (H1 & H2 & H3).
    cbn [peeka toy_seek_source]. unfold toy_lift. cbn [io_fda io_ret].
    rewrite toy_down_up. split; [exact H1|]. split; [exact H2 | exact H3].
  - intros f s n Hh Hn.
    destruct (src_reada toy_source_laws (n := n) Hh Hn) as (H1 & H2 & H3).
    cbn [reada toy_seek_source]. unfold toy_lift.
    cbn [io_fda io_ret io_bytes].
    rewrite toy_down_up. split; [exact H1|]. split; [exact H2 | exact H3].
  - intros f s a Hh Ha. rewrite toy_down_shrink.
    exact (src_shrink toy_source_laws Hh Ha).
Qed.

Lemma toy_seek_laws :
  @SeekLaws toy_file toy_seek_source toy_seek toy_seek_holds toy_file_of.
Proof.
  constructor; unfold toy_file_of.
  - intros f n c Hf. exact Hf.
  - intros f n c Hf. exact Hf.
  - intros d c b Hf. cbn [lseek toy_seek]. unfold toy_lseek.
    assert (Hlen : (0 <=? Z.of_nat (length (fst d))) = true)
      by (apply Z.leb_le; lia).
    rewrite Hlen. simpl.
    split; [reflexivity|]. split; [exact Hf|].
    split; [exact I|]. simpl. now rewrite Hf.
Qed.

(** The decoder that serves one frame keeps the contract of the frame
    decoder, and answers [LZMA_STREAM_END] once a frame is complete. *)
Lemma toy_once_laws :
  @EngineLaws _ toy_engine_once toy_is_frame toy_once_Ready toy_once_Decoding.
Proof.
  constructor.
  - exact (eng_frame_length toy_engine_laws).
  - intros ret e Hdec _. inversion Hdec. split; reflexivity.
  - intros [b s] fr d (Hb & Hr) Hf. simpl in Hb, Hr. subst b.
    destruct (eng_header toy_engine_laws Hr Hf) as (Hok & Hin & Hw & m & Hd).
    cbn [lzma_code toy_engine_once toy_code_once fst snd].
    cbn [lzma_code toy_engine] in Hok, Hin, Hw, Hd.
    cbn [co_ret co_avail_in co_written co_strm].
    split; [exact Hok|]. split; [exact Hin|]. split; [exact Hw|].
    exists m. split; [|exact Hd]. cbn [fst]. now rewrite Hok.
  - intros [b s] rin rout m (_ & Hd). exact (eng_pending toy_engine_laws Hd).
  - intros [b s] rin rout m inp tail rest n (Hb & Hd) Hne Heq Hn.
    simpl in Hb, Hd. subst b.
    destruct (eng_step toy_engine_laws Hd Hne Heq Hn)
      as (c & k & Hc & Hcr & Hin & Hkn & Hkr & Hout & Hw & Hcases).
    cbn [lzma_code toy_engine_once toy_code_once fst snd].
    cbn [lzma_code toy_engine] in Hin, Hout, Hw, Hcases.
    cbn [co_ret co_avail_in co_avail_out co_written co_strm].
    exists c, k. repeat (split; [assumption|]).
    destruct Hcases as [Hend|(Hok & m' & Hm' & Hd')]; [left; exact Hend|].
    right. split; [exact Hok|]. exists m'. split; [exact Hm'|].
    split; [|exact Hd']. cbn [fst]. now rewrite Hok.
Qed.

Lemma toy_once_spent (e : bool * toy_strm) (inp : list byte) (n : nat) :
  co_ret (@lzma_code _ toy_engine_once e inp n) = LZMA_STREAM_END ->
  forall inp' n',
    co_ret (@lzma_code _ toy_engine_once
              (co_strm (@lzma_code _ toy_engine_once e inp n)) inp' n') =
    LZMA_STREAM_END.
Proof.
  cbn [lzma_code toy_engine_once]. unfold toy_code_once at 1 3.
  destruct e as [[|] s]; cbn [fst snd co_ret co_strm].
  - intros _ inp' n'. reflexivity.
  - intros Hend inp' n'. unfold toy_code_once. cbn [fst].
    rewrite Hend. reflexivity.
Qed.

(** * More properties at work on the small sources and the small decoder *)

(** X1 on a read inside a frame cut short: -1, with an origin of
    [xzreader_read]. *)
Lemma error_reporting_witness :
  match xzreader_read 3 toy_z_body (toy_store body_truncated) 8 no_err with
  | Returns r =>
      rd_ret r = -1 /\
      (rd_ret r <> -1 -> rd_err r = no_err) /\
      (rd_ret r = -1 -> In (fst (rd_err r)) read_origins)
  | _ => False
  end.
Proof.
  destruct (xzreader_read 3 toy_z_body (toy_store body_truncated) 8 no_err)
    as [r| |] eqn:Hr; [|vm_compute in Hr; discriminate ..].
  split.
  - vm_compute in Hr. inversion Hr. reflexivity.
  - exact (proj2 (proj2 (@error_reporting _ _ toy_source toy_engine toy_libc))
             3%nat toy_z_body (toy_store body_truncated) 8%nat no_err r Hr).
Defined.

(** X2 on a read from source 0: source 1 is as before. *)
Lemma calls_touch_one_source_witness :
  match xzreader_read 3 toy_z_body (toy_store body_AB_more) 8 no_err with
  | Returns r =>
      z_fda (rd_z r) = 0%nat /\
      forall q, q <> 0%nat -> rd_store r q = toy_store body_AB_more q
  | _ => False
  end.
Proof.
  destruct (xzreader_read 3 toy_z_body (toy_store body_AB_more) 8 no_err)
    as [r| |] eqn:Hr; [|vm_compute in Hr; discriminate ..].
  exact (proj2 (@calls_touch_one_source _ _ toy_source toy_engine toy_libc)
           3%nat toy_z_body (toy_store body_AB_more) 8%nat no_err r Hr).
Defined.

(** X3 on the rest of frame "AB": the count 2, for 2 bytes stored. *)
Lemma read_count_witness :
  match xzreader_read 3 toy_z_body (toy_store body_AB_more) 8 no_err with
  | Returns r =>
      rd_buf r = [x41; x42] /\
      rd_ret r = Z.of_nat (length (rd_buf r)) /\
      (length (rd_buf r) <= 8)%nat
  | _ => False
  end.
Proof.
  destruct (xzreader_read 3 toy_z_body (toy_store body_AB_more) 8 no_err)
    as [r| |] eqn:Hr; [|vm_compute in Hr; discriminate ..].
  split.
  - vm_compute in Hr. inversion Hr. reflexivity.
  - apply (@read_count_is_bytes_stored _ _ toy_source toy_engine toy_libc
             3%nat toy_z_body (toy_store body_AB_more) 8%nat no_err r
             toy_code_exact Hr).
    vm_compute in Hr. inversion Hr. simpl. lia.
Defined.

(** X4 on the rest of frame "AB": 2 bytes in a buffer of 8, then 0 for
    buffers of 8, 1 and 3 bytes. *)
Lemma short_read_then_zero_witness :
  match xzreader_read 3 toy_z_body (toy_store body_AB_more) 8 no_err with
  | Returns r =>
      z_eof (rd_z r) = true /\
      read_calls 0 (rd_z r) (rd_store r) (rd_err r) [8; 1; 3]%nat =
      Returns ([0; 0; 0], rd_z r, rd_store r, rd_err r)
  | _ => False
  end.
Proof.
  destruct (xzreader_read 3 toy_z_body (toy_store body_AB_more) 8 no_err)
    as [r| |] eqn:Hr; [|vm_compute in Hr; discriminate ..].
  assert (Hret : 0 <= rd_ret r < Z.of_nat 8)
    by (vm_compute in Hr; inversion Hr; simpl; lia).
  destruct (@short_read_then_zero _ _ toy_source toy_engine toy_libc
              3%nat toy_z_body (toy_store body_AB_more) 8%nat no_err r
              toy_code_room ltac:(lia) Hr Hret) as (Heof & Hcalls).
  split; [exact Heof|]. exact (Hcalls 0%nat [8; 1; 3]%nat).
Defined.

(** X5 on the reader that [xzreader_open] makes on frame "AB". *)
Lemma reopen_starts_afresh_witness :
  match xzreader_open None 0%nat (toy_store frame_AB) no_err with
  | Returns o =>
      match op_zp o with
      | Some z' =>
          forall e' nf st' err',
            xzreader_reopen z' nf st' err' =
            xzreader_reopen (mkz (z_fda z') e' false) nf st' err'
      | None => False
      end
  | _ => False
  end.
Proof.
  destruct (xzreader_open None 0%nat (toy_store frame_AB) no_err)
    as [o| |] eqn:Ho; [|vm_compute in Ho; discriminate ..].
  assert (Hrc : op_rc o = 1) by (vm_compute in Ho; inversion Ho; reflexivity).
  destruct (op_zp o) as [z'|] eqn:Hz;
    [|vm_compute in Ho; inversion Ho; subst o; discriminate].
  exact (proj1 (@reopen_starts_afresh _ _ toy_source toy_engine toy_libc)
           None 0%nat (toy_store frame_AB) no_err o z' Ho Hrc Hz).
Defined.

(** X6 on the source that fails with [EIO]: the message of
    [xzreader_open]. *)
Lemma read_error_reporting_witness :
  @xzreader_open _ _ toy_source_eio toy_engine toy_libc
    None 0%nat (toy_store []) no_err =
  Returns (mkopen (-1) None
             (upd (toy_store []) 0%nat
                  (io_fda (@reada _ toy_source_eio (toy_store [] 0%nat)
                                  LZMA_STREAM_HEADER_SIZE)))
             ("read"%string, "Input/output error"%string)).
Proof.
  apply (proj1 (@read_error_reporting _ _ toy_source_eio toy_engine toy_libc)
           None 0%nat (toy_store []) no_err TInit).
  - reflexivity.
  - vm_compute. reflexivity.
Defined.

(** X7 on a body with a corrupt byte: one byte stored, then the error. *)
Lemma decoder_error_reporting_witness :
  xzreader_read 1 toy_z_body (toy_store body_corrupt) 8 no_err =
  Returns (mkread (-1) [x41] (mkz 0%nat TBody false)
             (upd (toy_store body_corrupt) 0%nat
                  (io_fda (iter_peek (toy_loop body_corrupt 8))))
             ("lzma_code"%string, "Compressed file is corrupt"%string)).
Proof.
  apply (@decoder_error_reporting _ _ toy_source toy_engine toy_libc
           1%nat toy_z_body (toy_store body_corrupt) 8%nat no_err 0%nat
           (toy_loop body_corrupt 8)).
  - reflexivity.
  - lia.
  - constructor.
  - vm_compute. reflexivity.
  - vm_compute. discriminate.
  - vm_compute. discriminate.
  - lia.
Defined.

(** X8 on the rest of frame "AB", with a one-byte buffer. *)
Lemma read_frame_ends_witness :
  match read_frame 5 toy_z_body (toy_store body_AB_more) 1 [] no_err with
  | Returns r =>
      ((fr_ret r = -1 /\ In (fst (fr_err r)) read_origins /\
        z_eof (fr_z r) = false) \/
       (fr_ret r = 0 /\ z_eof (fr_z r) = true /\ fr_err r = no_err)) /\
      z_fda (fr_z r) = 0%nat /\
      (exists w, fr_out r = [] ++ w) /\
      (forall q, q <> 0%nat -> fr_store r q = toy_store body_AB_more q)
  | _ => False
  end.
Proof.
  destruct (read_frame 5 toy_z_body (toy_store body_AB_more) 1 [] no_err)
    as [r| |] eqn:Hr; [|vm_compute in Hr; discriminate ..].
  exact (@read_frame_ends _ _ toy_source toy_engine toy_libc 1%nat
           toy_code_room ltac:(lia) 5%nat toy_z_body
           (toy_store body_AB_more) [] no_err r Hr).
Defined.

(** X9 on a source that holds one byte. *)
Lemma open_on_short_input_witness :
  xzreader_open None 0%nat (toy_store [x41]) no_err =
  Returns (mkopen (-1) None
             (upd (toy_store [x41]) 0%nat
                  (io_fda (reada (toy_store [x41] 0%nat)
                                 LZMA_STREAM_HEADER_SIZE)))
             ("xzreader_begin", "input too small")%string).
Proof.
  destruct (@open_on_short_input _ _ toy_source toy_engine toy_libc
              toy_holds toy_source_laws None 0%nat (toy_store [x41]) no_err
              TInit [x41])
    as (_ & _ & _ & Hsmall & _).
  - reflexivity.
  - split; [exact I | reflexivity].
  - unfold LZMA_STREAM_HEADER_SIZE. simpl. lia.
  - apply Hsmall. discriminate.
Defined.


(** X11 on a stream whose frame has a corrupt byte: exit code 1 and the
    line of [lzma_code]. *)
Lemma main_outcomes_witness :
  match @main _ _ toy_seek_source toy_seek toy_engine toy_libc 4
          (toy_magic ++ body_corrupt, toy_magic ++ body_corrupt) []
          None no_err no_err with
  | Returns m =>
      m_stderr m =
      ("xzreader: xzreader_read: lzma_code: Compressed file is corrupt"
       ++ NL)%string /\
      ((m_exit m = 0 /\ m_stderr m = ""%string) \/
       (m_exit m = 0 /\ m_stdout m = [] /\
        m_stderr m = ("xzreader: empty input" ++ NL)%string) \/
       (m_exit m = 1 /\ m_stdout m = [] /\
        exists origin msg, In origin open_origins /\
          m_stderr m =
          ("xzreader: xzreader_fdopen: " ++ origin ++ ": " ++ msg ++ NL)%string)
       \/
       (m_exit m = 1 /\
        exists origin msg, In origin reopen_origins /\
          m_stderr m =
          ("xzreader: xzreader_reopen: " ++ origin ++ ": " ++ msg ++ NL)%string)
       \/
       (m_exit m = 1 /\
        exists origin msg, (origin = "read" \/ origin = "lzma_code")%string /\
          m_stderr m =
          ("xzreader: xzreader_read: " ++ origin ++ ": " ++ msg ++ NL)%string)
       \/
       (m_exit m = 1 /\
        m_stderr m =
        ("xzreader: xzreader_read: unexpected EOF" ++ NL)%string))
  | _ => False
  end.
Proof.
  destruct (@main _ _ toy_seek_source toy_seek toy_engine toy_libc 4
              (toy_magic ++ body_corrupt, toy_magic ++ body_corrupt) []
              None no_err no_err)
    as [m| |] eqn:Hm; [|vm_compute in Hm; discriminate ..].
  split.
  - vm_compute in Hm. inversion Hm. reflexivity.
  - exact (@main_outcomes _ _ toy_seek_source toy_seek toy_engine toy_libc
             4%nat (toy_magic ++ body_corrupt, toy_magic ++ body_corrupt) []
             None no_err no_err m Hm).
Defined.


(** What [main] computes on frame "AB", with the decoder that serves one
    frame. *)
Example main_on_frame_AB :
  @main _ _ toy_seek_source toy_seek toy_engine_once toy_libc 4
    (frame_AB, frame_AB) [] None no_err no_err =
  Returns (mkmain 0 [x41; x42] "").
Proof. vm_compute. reflexivity. Qed.




(** What [main] computes on the stream "AB" "C" with the decoder that
    serves one frame. *)
Example main_on_two_frames_single_use :
  @main _ _ toy_seek_source toy_seek toy_engine_once toy_libc 4
    (two_frames, two_frames) [] None no_err no_err =
  Returns (mkmain 1 []
    ("xzreader: xzreader_reopen: lzma_code: Unknown error, possibly a bug"
     ++ NL)%string).
Proof. vm_compute. reflexivity. Qed.
